(** * The lazy bloom page iterator of [pkg/storage/bloom/v1/bloom_querier.go]

    A shallow embedding of [LazyBloomIter] and of its methods [ensureInit],
    [Seek], [Next], [next], [At] and [Err], followed by the properties of the
    cursor that the design document of the package states.

    The iterator drives three collaborators that live in other files of the
    package: the [Block] (with its header loader, its byte-stream reader and
    its page-decoder factory) and the [BloomPageDecoder] it hands out.  They
    are taken as an interface ([Collaborators]) over an abstract world; every
    theorem of the generic part holds for all implementations of that
    interface.  A small concrete block ([Mock]) is used to run the code. *)

From Stdlib Require Import ZArith String Bool.
From stdpp Require Import base list.
From Stdlib Require Import Lia.

Local Open Scope Z_scope.

(** Closed goals about the concrete block are settled by running the code. *)
Ltac conj := repeat match goal with |- _ /\ _ => split end.
Ltac by_running := cbv zeta; conj; vm_compute; reflexivity.

(** ** Errors *)

(** Go [error] values.  [ErrPageTooLarge] is the package's sentinel; every
    other error produced by a collaborator is opaque and identified by a
    code; [errors.Wrap] adds a message around a cause. *)
Inductive error : Type :=
| ErrPageTooLarge
| ErrOpaque (code : nat)
| Wrapped (cause : error) (msg : string).

Fixpoint error_eqb (x y : error) : bool :=
  match x, y with
  | ErrPageTooLarge, ErrPageTooLarge => true
  | ErrOpaque a, ErrOpaque c => Nat.eqb a c
  | Wrapped x' mx, Wrapped y' my => error_eqb x' y' && String.eqb mx my
  | _, _ => false
  end.

(** [errors.Wrap(err, msg)], used by the source only on a non-nil [err]. *)
Definition errors_Wrap (e : error) (msg : string) : error := Wrapped e msg.

(** [errors.Is]: walks the chain of causes looking for [target]. *)
Fixpoint error_chain_has (e target : error) : bool :=
  error_eqb e target ||
  match e with
  | Wrapped cause _ => error_chain_has cause target
  | _ => false
  end.

Definition errors_Is (e : option error) (target : error) : bool :=
  match e with
  | None => false
  | Some e => error_chain_has e target
  end.

(** ** Machine integers *)

(** Go's [int] on a 64-bit platform, as a [Z] in [-2^63, 2^63). *)
Definition int_min : Z := - 2 ^ 63.
Definition int_max : Z := 2 ^ 63 - 1.
Definition int_wrap (z : Z) : Z := (z + 2 ^ 63) mod 2 ^ 64 - 2 ^ 63.
Definition int_add (x y : Z) : Z := int_wrap (x + y).

(** ** Collaborators *)

(** A [*BloomPageDecoder]: an address in the world's store of decoders.
    [None] at type [option ptr] is the nil pointer. *)
Definition ptr : Type := nat.

(** The handle returned by [b.reader.Blooms()]. *)
Definition reader : Type := nat.

Record BloomOffset : Type := mkOffset { Page : Z; ByteOffset : Z }.

(** The calls the iterator makes on its collaborators, in the order it makes
    them (ghost state: the source keeps no such log).  The reads [d.Err()],
    [d.At()] and [len(pageHeaders)] change nothing and are not logged. *)
Inductive call : Type :=
| CallLoadHeaders
| CallBlooms
| CallBloomPageDecoder (page maxSize : Z)
| CallPageSeek (d : ptr) (byteOffset : Z)
| CallPageNext (d : ptr)
| CallRelinquish (d : ptr).

(** What the iterator needs from the block and from the page decoders, whose
    code is in other files of the package: they are parameters of the
    development.  Go's two-valued returns [(x, err)] are kept as pairs:
    nothing in the iterator's file says that one component excludes the
    other. *)
Class Collaborators (World Bloom : Type) : Type := {
  (** [b.LoadHeaders()] *)
  LoadHeaders : World -> option error * World;
  (** [len(b.blooms.pageHeaders)] *)
  numPages : World -> Z;
  (** [b.reader.Blooms()] *)
  reader_Blooms : World -> reader * option error * World;
  (** [b.blooms.BloomPageDecoder(r, page, maxSize, b.metrics)] *)
  BloomPageDecoder : reader -> Z -> Z -> World -> option ptr * option error * World;
  (** [d.Seek(byteOffset)] *)
  page_Seek : ptr -> Z -> World -> World;
  (** [d.Next()] *)
  page_Next : ptr -> World -> bool * World;
  (** [d.Err()] *)
  page_Err : ptr -> World -> option error;
  (** [d.At()] *)
  page_At : ptr -> World -> Bloom;
  (** [d.Relinquish()] *)
  page_Relinquish : ptr -> World -> World
}.

(** ** The iterator *)

(** How a method call ends.  [NilDeref] is the run-time panic of a method
    reached through a nil [*BloomPageDecoder]; [OutOfFuel] is the loop of
    [next] not finishing within the iterations it was given. *)
Inductive outcome (S A : Type) : Type :=
| Returns (a : A) (s : S)
| NilDeref (s : S)
| OutOfFuel.
Arguments Returns {S A} a s.
Arguments NilDeref {S A} s.
Arguments OutOfFuel {S A}.

Section Iterator.
Context {World Bloom : Type} `{!Collaborators World Bloom}.

(** [type LazyBloomIter struct].  [b] is the block together with everything
    reachable from it; [calls] is the ghost log. *)
Record LazyBloomIter : Type := mkIter {
  usePool : bool;
  b : World;
  m : Z;
  initialized : bool;
  err : option error;
  curPageIndex : Z;
  curPage : option ptr;
  calls : list call
}.

Definition set_b (w : World) (it : LazyBloomIter) : LazyBloomIter :=
  mkIter (usePool it) w (m it) (initialized it) (err it)
         (curPageIndex it) (curPage it) (calls it).
Definition set_initialized (v : bool) (it : LazyBloomIter) : LazyBloomIter :=
  mkIter (usePool it) (b it) (m it) v (err it)
         (curPageIndex it) (curPage it) (calls it).
Definition set_err (e : option error) (it : LazyBloomIter) : LazyBloomIter :=
  mkIter (usePool it) (b it) (m it) (initialized it) e
         (curPageIndex it) (curPage it) (calls it).
Definition set_curPageIndex (i : Z) (it : LazyBloomIter) : LazyBloomIter :=
  mkIter (usePool it) (b it) (m it) (initialized it) (err it)
         i (curPage it) (calls it).
Definition set_curPage (d : option ptr) (it : LazyBloomIter) : LazyBloomIter :=
  mkIter (usePool it) (b it) (m it) (initialized it) (err it)
         (curPageIndex it) d (calls it).
Definition log (c : call) (it : LazyBloomIter) : LazyBloomIter :=
  mkIter (usePool it) (b it) (m it) (initialized it) (err it)
         (curPageIndex it) (curPage it) (calls it ++ [c]).

(** [func NewLazyBloomIter(b *Block, pool bool, maxSize int)] *)
Definition NewLazyBloomIter (blk : World) (pool : bool) (maxSize : Z)
  : LazyBloomIter :=
  mkIter pool blk maxSize false None 0 None [].

(** *** Calls on the collaborators: run them on the world, log them *)

Definition do_LoadHeaders (it : LazyBloomIter) : option error * LazyBloomIter :=
  let '(e, w) := LoadHeaders (b it) in
  (e, log CallLoadHeaders (set_b w it)).

Definition do_Blooms (it : LazyBloomIter)
  : reader * option error * LazyBloomIter :=
  let '(r, e, w) := reader_Blooms (b it) in
  (r, e, log CallBlooms (set_b w it)).

Definition do_BloomPageDecoder (r : reader) (page maxSize : Z)
    (it : LazyBloomIter) : option ptr * option error * LazyBloomIter :=
  let '(d, e, w) := BloomPageDecoder r page maxSize (b it) in
  (d, e, log (CallBloomPageDecoder page maxSize) (set_b w it)).

Definition do_Relinquish (d : ptr) (it : LazyBloomIter) : LazyBloomIter :=
  log (CallRelinquish d) (set_b (page_Relinquish d (b it)) it).

Definition do_PageNext (d : ptr) (it : LazyBloomIter) : bool * LazyBloomIter :=
  let '(ok, w) := page_Next d (b it) in
  (ok, log (CallPageNext d) (set_b w it)).

(** [it.curPage.Seek(byteOffset)] *)
Definition curPage_Seek (byteOffset : Z) (it : LazyBloomIter)
  : outcome LazyBloomIter unit :=
  match curPage it with
  | None => NilDeref it
  | Some d =>
      Returns tt (log (CallPageSeek d byteOffset)
                      (set_b (page_Seek d byteOffset (b it)) it))
  end.

(** *** [func (it *LazyBloomIter) ensureInit()] *)
Definition ensureInit (it : LazyBloomIter) : LazyBloomIter :=
  if initialized it then it
  else
    let '(e, it) := do_LoadHeaders it in
    let it := match e with
              | Some e => set_err (Some e) it
              | None => it
              end in
    set_initialized true it.

(** *** [func (it *LazyBloomIter) Seek(offset BloomOffset)] *)

(** Lines 48-51: reset the error of a previous page too large. *)
Definition resetPageTooLarge (it : LazyBloomIter) : LazyBloomIter :=
  if errors_Is (err it) ErrPageTooLarge then set_err None it else it.

(** Line 55: [it.curPageIndex != offset.Page || it.curPage == nil]. *)
Definition needsLoad (offset : BloomOffset) (it : LazyBloomIter) : bool :=
  negb (curPageIndex it =? Page offset) ||
  match curPage it with None => true | Some _ => false end.

(** Lines 59-61: drop the current page if it exists and the pool is used. *)
Definition dropCurrent (it : LazyBloomIter) : LazyBloomIter :=
  match curPage it with
  | Some d => if usePool it then do_Relinquish d it else it
  | None => it
  end.

(** Lines 55-79, on the iterator as the first two steps left it. *)
Definition seekPage (offset : BloomOffset) (it : LazyBloomIter)
  : outcome LazyBloomIter unit :=
  if needsLoad offset it then
    let it := dropCurrent it in
    let '(r, e, it) := do_Blooms it in
    match e with
    | Some e =>
        Returns tt (set_err (Some (errors_Wrap e "getting blooms reader")) it)
    | None =>
        let '(decoder, e, it) :=
          do_BloomPageDecoder r (Page offset) (m it) it in
        match e with
        | Some e =>
            Returns tt (set_err (Some (errors_Wrap e "loading bloom page")) it)
        | None =>
            let it := set_curPageIndex (Page offset) it in
            let it := set_curPage decoder it in
            curPage_Seek (ByteOffset offset) it
        end
    end
  else curPage_Seek (ByteOffset offset) it.

Definition Seek (offset : BloomOffset) (it : LazyBloomIter)
  : outcome LazyBloomIter unit :=
  seekPage offset (resetPageTooLarge (ensureInit it)).

(** *** [func (it *LazyBloomIter) next() bool] *)

(** Lines 123-130: the current page is exhausted, progress to the next. *)
Definition leavePage (d : ptr) (it : LazyBloomIter) : LazyBloomIter :=
  let it := set_curPageIndex (int_add (curPageIndex it) 1) it in
  let it := if usePool it then do_Relinquish d it else it in
  set_curPage None it.

(** The [for] loop of lines 95-135; one unit of [fuel] per iteration. *)
Fixpoint next_loop (fuel : nat) (it : LazyBloomIter)
  : outcome LazyBloomIter bool :=
  match fuel with
  | O => OutOfFuel
  | S fuel =>
      if curPageIndex it <? numPages (b it) then
        match curPage it with
        | None =>
            let '(r, e, it) := do_Blooms it in
            match e with
            | Some e =>
                Returns false
                  (set_err (Some (errors_Wrap e "getting blooms reader")) it)
            | None =>
                let '(decoder, e, it) :=
                  do_BloomPageDecoder r (curPageIndex it) (m it) it in
                let it := set_curPage decoder it in
                match e with
                | Some e => Returns false (set_err (Some e) it)
                | None => next_loop fuel it
                end
            end
        | Some d =>
            let '(ok, it) := do_PageNext d it in
            if ok then Returns true it
            else
              match page_Err d (b it) with
              | Some _ => Returns false it
              | None => next_loop fuel (leavePage d it)
              end
        end
      else Returns false it
  end.

Definition next (fuel : nat) (it : LazyBloomIter)
  : outcome LazyBloomIter bool :=
  match err it with
  | Some _ => Returns false it
  | None => next_loop fuel it
  end.

(** *** [func (it *LazyBloomIter) Next() bool] *)
Definition Next (fuel : nat) (it : LazyBloomIter)
  : outcome LazyBloomIter bool :=
  let it := ensureInit it in
  match err it with
  | Some _ => Returns false it
  | None => next fuel it
  end.

(** *** [func (it *LazyBloomIter) At() *Bloom] *)
Definition At (it : LazyBloomIter) : outcome LazyBloomIter Bloom :=
  match curPage it with
  | None => NilDeref it
  | Some d => Returns (page_At d (b it)) it
  end.

(** *** [func (it *LazyBloomIter) Err() error] *)
Definition Err (it : LazyBloomIter) : option error :=
  match err it with
  | Some e => Some e
  | None =>
      match curPage it with
      | Some d => page_Err d (b it)
      | None => None
      end
  end.

End Iterator.

Arguments LazyBloomIter World : clear implicits.

Arguments mkIter {World} _ _ _ _ _ _ _ _.

(** The iterator a method call leaves behind, if it ends at all. *)
Definition final {S A : Type} (o : outcome S A) : option S :=
  match o with
  | Returns _ s => Some s
  | NilDeref s => Some s
  | OutOfFuel => None
  end.

(** ** Vocabulary of the properties *)

Section Vocabulary.
Context {World Bloom : Type} `{!Collaborators World Bloom}.

(** The iterators a program can hold: a fresh one, or one that a returning
    [Seek] or [Next] left behind (a panic ends the program). *)
Inductive reachable : LazyBloomIter World -> Prop :=
| reach_New blk pool maxSize :
    reachable (NewLazyBloomIter blk pool maxSize)
| reach_Seek it offset it' :
    reachable it -> Seek offset it = Returns tt it' -> reachable it'
| reach_Next it fuel ok it' :
    reachable it -> Next fuel it = Returns ok it' -> reachable it'.

(** Acquiring page [page] on world [w] fails: either the byte stream does not
    open or the decoder factory reports an error.  [e] is the error that
    [Seek] records for it and [w'] the world the attempt leaves. *)
Inductive acquire_fails (page maxSize : Z) (w : World)
  : error -> list call -> World -> Prop :=
| fail_Blooms r e w' :
    reader_Blooms w = (r, Some e, w') ->
    acquire_fails page maxSize w
      (errors_Wrap e "getting blooms reader") [CallBlooms] w'
| fail_BloomPageDecoder r w1 d e w' :
    reader_Blooms w = (r, None, w1) ->
    BloomPageDecoder r page maxSize w1 = (d, Some e, w') ->
    acquire_fails page maxSize w
      (errors_Wrap e "loading bloom page")
      [CallBlooms; CallBloomPageDecoder page maxSize] w'.

(** The calls made when the held page is dropped. *)
Definition dropCalls (it : LazyBloomIter World) : list call :=
  match curPage it with
  | Some d => if usePool it then [CallRelinquish d] else []
  | None => []
  end.

(** A bound on the iterations [next_loop] still needs: two per page left
    (load it, leave it), one less when the page is already loaded. *)
Definition iterations_left (it : LazyBloomIter World) : nat :=
  (2 * Z.to_nat (numPages (b it) - curPageIndex it)
   + match curPage it with None => 1 | Some _ => 0 end)%nat.

(** The calls one iteration of [next] may make on an iterator with pooling
    flag [pool] and maximum page size [maxSize]. *)
Definition next_call_ok (pool : bool) (maxSize : Z) (c : call) : Prop :=
  match c with
  | CallBlooms | CallPageNext _ => True
  | CallBloomPageDecoder _ maxSize' => maxSize' = maxSize
  | CallRelinquish _ => pool = true
  | CallLoadHeaders | CallPageSeek _ _ => False
  end.

(** The calls [Seek] may make once the held page is dropped, for target
    [offset] and maximum page size [maxSize]. *)
Definition load_call_ok (offset : BloomOffset) (maxSize : Z) (c : call)
  : Prop :=
  match c with
  | CallBlooms => True
  | CallBloomPageDecoder page maxSize' => page = Page offset /\ maxSize' = maxSize
  | CallPageSeek _ byteOffset => byteOffset = ByteOffset offset
  | CallLoadHeaders | CallPageNext _ | CallRelinquish _ => False
  end.

(** The calls of the lazy header load. *)
Definition initCalls (it : LazyBloomIter World) : list call :=
  if initialized it then [] else [CallLoadHeaders].

(** No call in [cs] repositions a page decoder. *)
Definition no_PageSeek (cs : list call) : Prop :=
  forall d byteOffset, ~ In (CallPageSeek d byteOffset) cs.

(** No call in [cs] releases a page, opens a byte stream or asks the block
    for a page decoder. *)
Definition no_turnover (cs : list call) : Prop :=
  forall c, In c cs ->
    match c with
    | CallRelinquish _ | CallBlooms | CallBloomPageDecoder _ _ => False
    | _ => True
    end.

(** The iterators later calls can lead to from [it]: any number of returning
    [Seek] and [Next] calls. *)
Inductive follows (it : LazyBloomIter World) : LazyBloomIter World -> Prop :=
| follows_here : follows it it
| follows_Seek it1 offset it2 :
    follows it it1 -> Seek offset it1 = Returns tt it2 -> follows it it2
| follows_Next it1 fuel ok it2 :
    follows it it1 -> Next fuel it1 = Returns ok it2 -> follows it it2.

(** The design document's reading of recoverability: page-too-large is
    cleared by [Seek] and kept by [Next], and it is the only kind of error a
    cursor recovers from: with an error of another kind recorded, no later
    calls lead to an iterator without error. *)
Definition page_too_large_only_recoverable : Prop :=
  forall (it : LazyBloomIter World) (e : error),
    initialized it = true ->
    err it = Some e ->
    (errors_Is (Some e) ErrPageTooLarge = true ->
     err (resetPageTooLarge (ensureInit it)) = None /\
     forall fuel, Next fuel it = Returns false it) /\
    (errors_Is (Some e) ErrPageTooLarge = false ->
     forall it', follows it it' -> err it' <> None).

(** What lines 63-79 of [Seek] leave when they run on world [w] for target
    [offset]: the world after the stream open, the decoder request and the
    repositioning (as far as they are reached), and the error they record
    when the acquisition fails. *)
Definition loadOn (offset : BloomOffset) (maxSize : Z) (w : World)
  : World * option error :=
  let '(r, e, w1) := reader_Blooms w in
  match e with
  | Some e => (w1, Some (errors_Wrap e "getting blooms reader"))
  | None =>
      let '(decoder, e, w2) := BloomPageDecoder r (Page offset) maxSize w1 in
      match e with
      | Some e => (w2, Some (errors_Wrap e "loading bloom page"))
      | None =>
          (match decoder with
           | Some d => page_Seek d (ByteOffset offset) w2
           | None => w2
           end, None)
      end
  end.

(** The design document's reading of a failed cursor: with an error other
    than page-too-large recorded, [Next] returns false at once and [Seek]
    keeps the error and positions nothing. *)
Definition failed_cursor_short_circuits : Prop :=
  forall (it : LazyBloomIter World) (e : error) (offset : BloomOffset)
         (fuel : nat),
    initialized it = true ->
    err it = Some e ->
    errors_Is (Some e) ErrPageTooLarge = false ->
    Next fuel it = Returns false it /\
    exists it' new,
      Seek offset it = Returns tt it' /\
      err it' = Some e /\
      calls it' = calls it ++ new /\
      no_PageSeek new /\
      curPage it' = curPage it /\
      curPageIndex it' = curPageIndex it.

(** The design document's reading of a page that stops on a decoding error:
    [next] copies the page's error into the iterator's own error field. *)
Definition page_error_is_recorded : Prop :=
  forall (it : LazyBloomIter World) (d : ptr) (fuel : nat)
         (w' : World) (e : error),
    err it = None ->
    curPage it = Some d ->
    curPageIndex it < numPages (b it) ->
    page_Next d (b it) = (false, w') ->
    page_Err d w' = Some e ->
    exists it', next (S fuel) it = Returns false it' /\ err it' = Some e.

End Vocabulary.

(** ** A concrete block *)

(** Modelled from the spec: [Block], its reader and [BloomPageDecoder] are
    declared in other files of the package.  This block follows the contract
    the design document gives for them: headers are loaded once; the decoder
    factory fails with page-too-large when the page exceeds the maximum size
    and with an invalid-page error outside the page range, and otherwise
    returns a decoder at the start of the page; a decoder repositions,
    advances (false at the end of the page or on a record that does not
    decode, which sets its local error), reports its error and counts its
    releases.  Pages are lists of records kept in memory, a record that does
    not decode is [None], the size of a page is its number of records and a
    byte offset is a position in the list.  Decoders are allocated in
    [decoders] and addressed by position. *)
Module Mock.

Record Decoder : Type := mkDecoder {
  d_page : Z;
  d_records : list (option nat);
  d_pos : nat;
  d_cur : option nat;
  d_err : option error;
  d_released : nat
}.

Record Block : Type := mkBlock {
  headersErr : option error;
  readerErr : option error;
  stored : list (list (option nat));
  pageHeaders : list nat;
  decoders : list Decoder
}.

Definition errInvalidPage : error := ErrOpaque 1.
Definition errDecode : error := ErrOpaque 2.
Definition errCorruptHeaders : error := ErrOpaque 3.
Definition errStream : error := ErrOpaque 4.

Definition set_decoders (ds : list Decoder) (w : Block) : Block :=
  mkBlock (headersErr w) (readerErr w) (stored w) (pageHeaders w) ds.

Definition loadHeaders (w : Block) : option error * Block :=
  match headersErr w with
  | Some e => (Some e, w)
  | None =>
      (None, mkBlock None (readerErr w) (stored w)
                     (map length (stored w)) (decoders w))
  end.

Definition blooms (w : Block) : reader * option error * Block :=
  (O, readerErr w, w).

Definition bloomPageDecoder (r : reader) (page maxSize : Z) (w : Block)
  : option ptr * option error * Block :=
  if (page <? 0) || (Z.of_nat (length (pageHeaders w)) <=? page) then
    (None, Some errInvalidPage, w)
  else
    match pageHeaders w !! Z.to_nat page, stored w !! Z.to_nat page with
    | Some size, Some records =>
        if maxSize <? Z.of_nat size then (None, Some ErrPageTooLarge, w)
        else
          (Some (length (decoders w)), None,
           set_decoders
             (decoders w ++ [mkDecoder page records O None None O]) w)
    | _, _ => (None, Some errInvalidPage, w)
    end.

Definition onDecoder (f : Decoder -> Decoder) (d : ptr) (w : Block) : Block :=
  set_decoders (alter f d (decoders w)) w.

Definition seek (d : ptr) (byteOffset : Z) (w : Block) : Block :=
  onDecoder (fun x => mkDecoder (d_page x) (d_records x) (Z.to_nat byteOffset)
                                (d_cur x) (d_err x) (d_released x)) d w.

Definition advance (x : Decoder) : bool * Decoder :=
  match d_err x with
  | Some _ => (false, x)
  | None =>
      match d_records x !! d_pos x with
      | None => (false, x)
      | Some None =>
          (false, mkDecoder (d_page x) (d_records x) (d_pos x) (d_cur x)
                            (Some errDecode) (d_released x))
      | Some (Some v) =>
          (true, mkDecoder (d_page x) (d_records x) (S (d_pos x)) (Some v)
                           None (d_released x))
      end
  end.

Definition nextRecord (d : ptr) (w : Block) : bool * Block :=
  match decoders w !! d with
  | None => (false, w)
  | Some x => (fst (advance x), onDecoder (fun x => snd (advance x)) d w)
  end.

Definition pageErr (d : ptr) (w : Block) : option error :=
  match decoders w !! d with
  | None => None
  | Some x => d_err x
  end.

Definition at_ (d : ptr) (w : Block) : option nat :=
  match decoders w !! d with
  | None => None
  | Some x => d_cur x
  end.

Definition relinquish (d : ptr) (w : Block) : Block :=
  onDecoder (fun x => mkDecoder (d_page x) (d_records x) (d_pos x) (d_cur x)
                                (d_err x) (S (d_released x))) d w.

#[export] Instance collaborators : Collaborators Block (option nat) := {|
  LoadHeaders := loadHeaders;
  numPages := fun w => Z.of_nat (length (pageHeaders w));
  reader_Blooms := blooms;
  BloomPageDecoder := bloomPageDecoder;
  page_Seek := seek;
  page_Next := nextRecord;
  page_Err := pageErr;
  page_At := at_;
  page_Relinquish := relinquish
|}.

(** Three pages; the second has five records, the third stops on a record
    that does not decode. *)
Definition block3 : Block :=
  mkBlock None None
    [ [Some 10%nat; Some 11%nat];
      [Some 20%nat; Some 21%nat; Some 22%nat; Some 23%nat; Some 24%nat];
      [Some 30%nat; None] ]
    [] [].

(** The iterator a run of calls leaves, starting from [it]. *)
Inductive op : Type :=
| OpSeek (page byteOffset : Z)
| OpNext.

Definition step (o : op) (it : LazyBloomIter Block) : LazyBloomIter Block :=
  match o with
  | OpSeek p o =>
      match final (Seek (mkOffset p o) it) with Some it' => it' | None => it end
  | OpNext =>
      match final (Next 16 it) with Some it' => it' | None => it end
  end.

Definition run (ops : list op) (it : LazyBloomIter Block) : LazyBloomIter Block :=
  fold_left (fun it o => step o it) ops it.

(** A pooled iterator that decodes pages of at most two records. *)
Definition pooled : LazyBloomIter Block := NewLazyBloomIter block3 true 2.

(** Two sound pages, of three and of two records, and a pooled iterator
    that can decode both. *)
Definition block2 : Block :=
  mkBlock None None
    [ [Some 1%nat; Some 2%nat; Some 3%nat]; [Some 4%nat; Some 5%nat] ]
    [] [].

Definition scan : LazyBloomIter Block := NewLazyBloomIter block2 true 3.

(** The same block read without pooling. *)
Definition plain : LazyBloomIter Block := NewLazyBloomIter block2 false 3.

(** The same block with headers that do not load. *)
Definition corrupt : LazyBloomIter Block :=
  NewLazyBloomIter
    (mkBlock (Some errCorruptHeaders) None (stored block2) [] []) true 3.

(** The same block behind a byte stream that does not open. *)
Definition offline : LazyBloomIter Block :=
  NewLazyBloomIter (mkBlock None (Some errStream) (stored block2) [] []) true 3.

End Mock.


(** How many times the calls [cs] load the block's headers. *)
Fixpoint loads (cs : list call) : nat :=
  match cs with
  | [] => O
  | CallLoadHeaders :: cs => S (loads cs)
  | _ :: cs => loads cs
  end.

(** How many times the calls [cs] release decoder [d]. *)
Fixpoint releases (d : ptr) (cs : list call) : nat :=
  match cs with
  | [] => O
  | CallRelinquish d' :: cs =>
      ((if Nat.eqb d d' then 1 else 0) + releases d cs)%nat
  | _ :: cs => releases d cs
  end.

(** ** Basic facts about the steps of [Seek] and [Next] *)

Section Steps.
Context {World Bloom : Type} `{!Collaborators World Bloom}.
Implicit Types (it : LazyBloomIter World) (offset : BloomOffset).

Lemma ensureInit_done it : initialized it = true -> ensureInit it = it.
Proof. unfold ensureInit. now intros ->. Qed.

Lemma ensureInit_initialized it : initialized (ensureInit it) = true.
Proof.
  unfold ensureInit, do_LoadHeaders.
  destruct (initialized it) eqn:Hi; [exact Hi|].
  destruct (LoadHeaders (b it)) as [[e|] w]; reflexivity.
Qed.

(** [ensureInit] touches the block, the error and the flag, nothing else. *)
Lemma ensureInit_frame it :
  usePool (ensureInit it) = usePool it /\
  m (ensureInit it) = m it /\
  curPageIndex (ensureInit it) = curPageIndex it /\
  curPage (ensureInit it) = curPage it /\
  calls (ensureInit it) =
    calls it ++ (if initialized it then [] else [CallLoadHeaders]).
Proof.
  unfold ensureInit, do_LoadHeaders.
  destruct (initialized it).
  - rewrite app_nil_r. repeat split.
  - destruct (LoadHeaders (b it)) as [[e|] w]; repeat split.
Qed.

Lemma resetPageTooLarge_frame it :
  usePool (resetPageTooLarge it) = usePool it /\
  b (resetPageTooLarge it) = b it /\
  m (resetPageTooLarge it) = m it /\
  initialized (resetPageTooLarge it) = initialized it /\
  curPageIndex (resetPageTooLarge it) = curPageIndex it /\
  curPage (resetPageTooLarge it) = curPage it /\
  calls (resetPageTooLarge it) = calls it.
Proof.
  unfold resetPageTooLarge.
  destruct (errors_Is (err it) ErrPageTooLarge); repeat split.
Qed.

Lemma resetPageTooLarge_clears it :
  errors_Is (err it) ErrPageTooLarge = true ->
  resetPageTooLarge it = set_err None it.
Proof. unfold resetPageTooLarge. now intros ->. Qed.

Lemma resetPageTooLarge_keeps it :
  errors_Is (err it) ErrPageTooLarge = false ->
  resetPageTooLarge it = it.
Proof. unfold resetPageTooLarge. now intros ->. Qed.

Lemma dropCurrent_frame it :
  usePool (dropCurrent it) = usePool it /\
  m (dropCurrent it) = m it /\
  initialized (dropCurrent it) = initialized it /\
  err (dropCurrent it) = err it /\
  curPageIndex (dropCurrent it) = curPageIndex it /\
  curPage (dropCurrent it) = curPage it /\
  calls (dropCurrent it) = calls it ++ dropCalls it.
Proof.
  unfold dropCurrent, dropCalls.
  destruct (curPage it) as [d|] eqn:Hd.
  - destruct (usePool it) eqn:Hu.
    + cbn. auto 10.
    + rewrite app_nil_r. auto 10.
  - rewrite app_nil_r. auto 10.
Qed.

Lemma seekPage_reuse it offset :
  needsLoad offset it = false ->
  seekPage offset it = curPage_Seek (ByteOffset offset) it.
Proof. unfold seekPage. now intros ->. Qed.

(** A failed acquisition ends [seekPage] with the error recorded and the
    position fields as they were. *)
Lemma seekPage_acquire_fails it offset e cs w' :
  needsLoad offset it = true ->
  acquire_fails (Page offset) (m it) (b (dropCurrent it)) e cs w' ->
  exists it',
    seekPage offset it = Returns tt it' /\
    err it' = Some e /\
    b it' = w' /\
    usePool it' = usePool it /\
    m it' = m it /\
    initialized it' = initialized it /\
    curPageIndex it' = curPageIndex it /\
    curPage it' = curPage it /\
    calls it' = calls it ++ dropCalls it ++ cs.
Proof.
  intros Hload Hfail. unfold seekPage. rewrite Hload.
  destruct (dropCurrent_frame it) as (Hu & Hm & Hi & _ & Hx & Hp & Hc).
  unfold do_Blooms, do_BloomPageDecoder.
  inversion Hfail as [r e0 w0 HB | r w1 d e0 w0 HB HD]; subst.
  - rewrite HB. eexists. split; [reflexivity|]. cbn.
    rewrite Hc, <- app_assoc. auto 10.
  - rewrite HB. cbn. rewrite Hm, HD. eexists. split; [reflexivity|]. cbn.
    rewrite Hc, <- !app_assoc. auto 10.
Qed.

(** [Seek] always ends: it returns, or panics on a nil decoder. *)
Lemma seekPage_ends it offset : exists it', final (seekPage offset it) = Some it'.
Proof.
  unfold seekPage, curPage_Seek, do_Blooms, do_BloomPageDecoder.
  destruct (needsLoad offset it).
  - destruct (reader_Blooms (b (dropCurrent it))) as [[r [e|]] w];
      [eexists; reflexivity|].
    cbn.
    destruct (BloomPageDecoder r (Page offset) (m (dropCurrent it)) w)
      as [[[d|] [e|]] w2]; eexists; reflexivity.
  - destruct (curPage it); eexists; reflexivity.
Qed.

Lemma Seek_ends it offset : exists it', final (Seek offset it) = Some it'.
Proof. apply seekPage_ends. Qed.

Lemma needsLoad_prologue it offset :
  needsLoad offset (resetPageTooLarge (ensureInit it)) = needsLoad offset it.
Proof.
  destruct (ensureInit_frame it) as (_ & _ & Ex & Ep & _).
  destruct (resetPageTooLarge_frame (ensureInit it))
    as (_ & _ & _ & _ & Rx & Rp & _).
  unfold needsLoad. now rewrite Rx, Rp, Ex, Ep.
Qed.

Lemma acquire_fails_no_PageSeek page maxSize (w : World) e cs w' :
  acquire_fails page maxSize w e cs w' -> no_PageSeek cs.
Proof.
  intros Hfail d o Hin. inversion Hfail; subst; cbn in Hin.
  - destruct Hin as [Hin|[]]. discriminate Hin.
  - destruct Hin as [Hin|[Hin|[]]]; discriminate Hin.
Qed.

Lemma dropCalls_no_PageSeek it : no_PageSeek (dropCalls it).
Proof.
  intros d o. unfold dropCalls.
  destruct (curPage it) as [d'|]; [destruct (usePool it)|]; cbn;
    intros Hin; try contradiction.
  destruct Hin as [Hin|[]]. discriminate Hin.
Qed.

(** When a page has to be loaded, the held page is dropped first and the
    byte stream is opened next, however the call ends. *)
Lemma seekPage_load_calls it offset :
  needsLoad offset it = true ->
  exists it' rest,
    final (seekPage offset it) = Some it' /\
    calls it' = calls it ++ dropCalls it ++ CallBlooms :: rest.
Proof.
  intros Hload. unfold seekPage. rewrite Hload.
  destruct (dropCurrent_frame it) as (_ & _ & _ & _ & _ & _ & Hc).
  unfold do_Blooms, do_BloomPageDecoder, curPage_Seek.
  destruct (reader_Blooms (b (dropCurrent it))) as [[r [e|]] w].
  - exists (set_err (Some (errors_Wrap e "getting blooms reader"))
                    (log CallBlooms (set_b w (dropCurrent it)))), [].
    split; [reflexivity|]. cbn. now rewrite Hc, <- app_assoc.
  - cbn.
    destruct (BloomPageDecoder r (Page offset) (m (dropCurrent it)) w)
      as [[[d|] [e|]] w2]; cbn;
      eexists; eexists; (split; [reflexivity|]); cbn;
      rewrite Hc, <- ?app_assoc; cbn; reflexivity.
Qed.

(** Dropping a held page with pooling on releases it in the world. *)
Lemma dropCurrent_world it d :
  curPage it = Some d -> usePool it = true ->
  b (dropCurrent it) = page_Relinquish d (b it).
Proof. unfold dropCurrent. now intros -> ->. Qed.

(** The world and the error a loading [seekPage] leaves: what [loadOn] gives
    on the world the drop of the held page left. *)
Lemma seekPage_load_world it offset :
  needsLoad offset it = true ->
  exists it',
    final (seekPage offset it) = Some it' /\
    b it' = fst (loadOn offset (m it) (b (dropCurrent it))) /\
    err it' = match snd (loadOn offset (m it) (b (dropCurrent it))) with
              | Some e => Some e
              | None => err it
              end.
Proof.
  intros Hload. unfold seekPage, loadOn. rewrite Hload.
  destruct (dropCurrent_frame it) as (_ & Hm & _ & He & _ & _ & _).
  unfold do_Blooms, do_BloomPageDecoder, curPage_Seek.
  destruct (reader_Blooms (b (dropCurrent it))) as [[r [e|]] w].
  - eexists. split; [reflexivity|]. split; reflexivity.
  - cbn. rewrite Hm.
    destruct (BloomPageDecoder r (Page offset) (m it) w)
      as [[[d|] [e|]] w2]; cbn;
      eexists; (split; [reflexivity|]); split; cbn; auto.
Qed.

(** [seekPage] never sets the error to nil: it leaves the error field alone
    unless the acquisition fails, and then records that failure. *)
Lemma seekPage_err it offset :
  exists it',
    final (seekPage offset it) = Some it' /\
    (err it' = err it \/
     exists e' cs w',
       acquire_fails (Page offset) (m it) (b (dropCurrent it)) e' cs w' /\
       err it' = Some e').
Proof.
  unfold seekPage.
  destruct (dropCurrent_frame it) as (_ & Hm & _ & He & _ & _ & _).
  unfold do_Blooms, do_BloomPageDecoder, curPage_Seek.
  destruct (needsLoad offset it).
  - destruct (reader_Blooms (b (dropCurrent it))) as [[r [e|]] w] eqn:HB.
    + eexists. split; [reflexivity|]. right.
      eexists. eexists. eexists. split; [|reflexivity].
      eapply fail_Blooms. exact HB.
    + cbn.
      destruct (BloomPageDecoder r (Page offset) (m (dropCurrent it)) w)
        as [[[d|] [e|]] w2] eqn:HD; cbn.
      * eexists. split; [reflexivity|]. right.
        eexists. eexists. eexists. split; [|reflexivity].
        eapply fail_BloomPageDecoder; [exact HB|]. rewrite <- Hm. exact HD.
      * eexists. split; [reflexivity|]. left. exact He.
      * eexists. split; [reflexivity|]. right.
        eexists. eexists. eexists. split; [|reflexivity].
        eapply fail_BloomPageDecoder; [exact HB|]. rewrite <- Hm. exact HD.
      * eexists. split; [reflexivity|]. left. exact He.
  - destruct (curPage it); eexists; (split; [reflexivity|]); now left.
Qed.

Lemma seekPage_initialized it offset it' :
  final (seekPage offset it) = Some it' -> initialized it' = initialized it.
Proof.
  unfold seekPage.
  destruct (dropCurrent_frame it) as (_ & _ & Hi & _ & _ & _ & _).
  unfold do_Blooms, do_BloomPageDecoder, curPage_Seek.
  destruct (needsLoad offset it).
  - destruct (reader_Blooms (b (dropCurrent it))) as [[r [e|]] w].
    + cbn. intros [= <-]. exact Hi.
    + cbn.
      destruct (BloomPageDecoder r (Page offset) (m (dropCurrent it)) w)
        as [[[d|] [e|]] w2]; cbn; intros [= <-]; exact Hi.
  - destruct (curPage it); cbn; now intros [= <-].
Qed.

Lemma leavePage_initialized d it :
  initialized (leavePage d it) = initialized it.
Proof. unfold leavePage. cbn. now destruct (usePool it). Qed.

Lemma next_loop_initialized fuel : forall it ok it',
  next_loop fuel it = Returns ok it' -> initialized it' = initialized it.
Proof.
  induction fuel as [|fuel IH]; intros it ok it'; cbn [next_loop];
    [discriminate|].
  destruct (curPageIndex it <? numPages (b it)); [|now intros [= _ <-]].
  destruct (curPage it) as [d|].
  - unfold do_PageNext. destruct (page_Next d (b it)) as [[|] w].
    + now intros [= _ <-].
    + cbn. destruct (page_Err d w); [now intros [= _ <-]|].
      intros Hrun. apply IH in Hrun. rewrite Hrun.
      now rewrite leavePage_initialized.
  - unfold do_Blooms, do_BloomPageDecoder.
    destruct (reader_Blooms (b it)) as [[r [e|]] w]; [now intros [= _ <-]|].
    cbn. destruct (BloomPageDecoder r (curPageIndex it) (m it) w)
      as [[d [e|]] w2]; cbn; [now intros [= _ <-]|].
    intros Hrun. now apply IH in Hrun.
Qed.

(** A recorded error implies that the headers were loaded (or tried): only
    an initialized iterator carries an error. *)
Lemma reachable_error_initialized it :
  reachable it -> err it <> None -> initialized it = true.
Proof.
  intros Hreach. destruct Hreach as [blk pool maxSize|it0 offset it' _ HS|it0 fuel ok it' _ HN].
  - cbn. congruence.
  - intros _. unfold Seek in HS.
    rewrite (seekPage_initialized _ offset it') by now rewrite HS.
    destruct (resetPageTooLarge_frame (ensureInit it0))
      as (_ & _ & _ & -> & _).
    apply ensureInit_initialized.
  - intros _. unfold Next, next in HN.
    destruct (err (ensureInit it0)).
    + injection HN as _ <-. apply ensureInit_initialized.
    + apply next_loop_initialized in HN. rewrite HN.
      apply ensureInit_initialized.
Qed.

(** [Seek] on the page that is held: the common ground of the in-place
    repositioning and of the reuse of a decoder that was already released. *)
Lemma Seek_on_held_page it offset d :
  curPage it = Some d ->
  curPageIndex it = Page offset ->
  let it0 := resetPageTooLarge (ensureInit it) in
  let it' := log (CallPageSeek d (ByteOffset offset))
                 (set_b (page_Seek d (ByteOffset offset) (b it0)) it0) in
  Seek offset it = Returns tt it' /\
  curPage it' = Some d /\
  curPageIndex it' = Page offset /\
  calls it' = calls it ++ (if initialized it then [] else [CallLoadHeaders])
                       ++ [CallPageSeek d (ByteOffset offset)].
Proof.
  intros Hd Hx it0 it'.
  destruct (ensureInit_frame it) as (_ & _ & Ex & Ep & Ec).
  destruct (resetPageTooLarge_frame (ensureInit it))
    as (_ & _ & _ & _ & Rx & Rp & Rc).
  assert (Hp0 : curPage it0 = Some d) by (unfold it0; congruence).
  assert (Hx0 : curPageIndex it0 = Page offset) by (unfold it0; congruence).
  split; [|split; [|split]].
  - unfold Seek. fold it0. rewrite seekPage_reuse.
    + unfold curPage_Seek. rewrite Hp0. reflexivity.
    + unfold needsLoad. rewrite Hp0, Hx0, Z.eqb_refl. reflexivity.
  - exact Hp0.
  - exact Hx0.
  - unfold it'. cbn. unfold it0. rewrite Rc, Ec, <- app_assoc. reflexivity.
Qed.

End Steps.

(** ** The cursor's contract *)

Section Contract.
Context {World Bloom : Type} `{!Collaborators World Bloom}.
Implicit Types (it : LazyBloomIter World) (offset : BloomOffset).

Lemma next_loop_exhausted it fuel :
  numPages (b it) <= curPageIndex it ->
  next_loop (S fuel) it = Returns false it.
Proof.
  intros Hle. cbn [next_loop].
  destruct (Z.ltb_spec (curPageIndex it) (numPages (b it))); [lia|reflexivity].
Qed.

(** One iteration of the loop on a held page whose [Next] answers false. *)
Lemma next_loop_page_stops it d fuel w' :
  curPage it = Some d ->
  curPageIndex it < numPages (b it) ->
  page_Next d (b it) = (false, w') ->
  next_loop (S fuel) it =
    let it1 := log (CallPageNext d) (set_b w' it) in
    match page_Err d w' with
    | Some _ => Returns false it1
    | None => next_loop fuel (leavePage d it1)
    end.
Proof.
  intros Hd Hlt Hn. cbn [next_loop].
  destruct (Z.ltb_spec (curPageIndex it) (numPages (b it))); [|lia].
  rewrite Hd. unfold do_PageNext. rewrite Hn. reflexivity.
Qed.

Lemma leavePage_frame d it :
  curPage (leavePage d it) = None /\
  curPageIndex (leavePage d it) = int_add (curPageIndex it) 1 /\
  err (leavePage d it) = err it /\
  initialized (leavePage d it) = initialized it /\
  calls (leavePage d it) =
    calls it ++ (if usePool it then [CallRelinquish d] else []).
Proof.
  unfold leavePage. cbn. destruct (usePool it); cbn.
  - auto.
  - rewrite app_nil_r. auto.
Qed.

(** C7: [Err] returns the cursor-level recorded error when one is set;
    otherwise, when a page decoder is held, that page's local error;
    otherwise nil. *)
Theorem Err_prefers_cursor_error_then_page_error it :
  (forall e, err it = Some e -> Err it = Some e) /\
  (forall d, err it = None -> curPage it = Some d ->
             Err it = page_Err d (b it)) /\
  (err it = None -> curPage it = None -> Err it = None).
Proof.
  unfold Err. split; [|split].
  - now intros e ->.
  - now intros d -> ->.
  - now intros -> ->.
Qed.

(** C10: [At] dereferences the held page decoder unconditionally.  With no
    page held the call is a nil dereference, with a page held it is that
    page's [At]; so [At] is defined exactly when a decoder is held.  A freshly
    constructed iterator holds none, and neither does the iterator [next]
    leaves after the last page ran out. *)
Theorem At_defined_only_on_held_page it :
  (curPage it = None -> At it = NilDeref it) /\
  (forall d, curPage it = Some d -> At it = Returns (page_At d (b it)) it) /\
  (forall blk pool maxSize,
      At (NewLazyBloomIter blk pool maxSize)
      = NilDeref (NewLazyBloomIter blk pool maxSize)) /\
  (forall d fuel w',
      err it = None ->
      curPage it = Some d ->
      curPageIndex it < numPages (b it) ->
      page_Next d (b it) = (false, w') ->
      page_Err d w' = None ->
      let it' := leavePage d (log (CallPageNext d) (set_b w' it)) in
      numPages (b it') <= curPageIndex it' ->
      next (S (S fuel)) it = Returns false it' /\
      curPage it' = None /\
      At it' = NilDeref it').
Proof.
  split; [|split; [|split]].
  - unfold At. now intros ->.
  - unfold At. now intros d ->.
  - reflexivity.
  - intros d fuel w' He Hd Hlt Hn Hpe it' Hlast.
    destruct (leavePage_frame d (log (CallPageNext d) (set_b w' it)))
      as [Hnil _].
    fold it' in Hnil. split; [|split].
    + unfold next. rewrite He.
      rewrite (next_loop_page_stops it d (S fuel) w') by assumption.
      cbn zeta. rewrite Hpe. now apply next_loop_exhausted.
    + exact Hnil.
    + unfold At. now rewrite Hnil.
Qed.

(** C5: when a page decoder is held and its index is the target's page,
    [Seek] repositions that decoder with [Seek(byteOffset)] and neither
    releases a page, nor opens a byte stream, nor asks the block for a
    decoder: besides the lazy header load, the repositioning is its only
    call, and the held page stays the held page. *)
Theorem Seek_held_page_repositions_in_place it offset d :
  curPage it = Some d ->
  curPageIndex it = Page offset ->
  let it0 := resetPageTooLarge (ensureInit it) in
  let it' := log (CallPageSeek d (ByteOffset offset))
                 (set_b (page_Seek d (ByteOffset offset) (b it0)) it0) in
  Seek offset it = Returns tt it' /\
  curPage it' = Some d /\
  curPageIndex it' = Page offset /\
  exists new,
    calls it' = calls it ++ new /\
    new = (if initialized it then [] else [CallLoadHeaders])
            ++ [CallPageSeek d (ByteOffset offset)] /\
    no_turnover new.
Proof.
  intros Hd Hx it0 it'.
  destruct (Seek_on_held_page it offset d Hd Hx) as (HS & Hp & Hi & Hc).
  fold it0 in HS, Hp, Hi, Hc. fold it' in HS, Hp, Hi, Hc.
  split; [exact HS|]. split; [exact Hp|]. split; [exact Hi|].
  eexists. split; [exact Hc|]. split; [reflexivity|].
  intros c Hin. apply in_app_or in Hin as [Hin|Hin].
  - destruct (initialized it); [contradiction|].
    destruct Hin as [<-|[]]. exact I.
  - destruct Hin as [<-|[]]. exact I.
Qed.

(** C6: when the page index has reached the block's page count, no error is
    recorded and the held page (if any) reports none, [Next] returns false
    and [Err] returns nil: the end of the data is not a failure.  The
    premises are read once the lazy header load of the call is done. *)
Theorem Next_past_last_page_is_clean_end it fuel :
  let it1 := ensureInit it in
  err it1 = None ->
  numPages (b it1) <= curPageIndex it1 ->
  (forall d, curPage it1 = Some d -> page_Err d (b it1) = None) ->
  Next (S fuel) it = Returns false it1 /\ Err it1 = None.
Proof.
  intros it1 He Hle Hpage. split.
  - unfold Next. fold it1. rewrite He. unfold next. rewrite He.
    now apply next_loop_exhausted.
  - unfold Err. rewrite He. destruct (curPage it1) as [d|] eqn:Hd.
    + now apply Hpage.
    + reflexivity.
Qed.

(** C2, as the code has it: with page-too-large recorded, [Seek] (to any
    target) clears the error before it looks at the target, so that the call
    goes on exactly as on an iterator without error, while [Next] returns
    false and leaves the iterator, error included, as it was.
    Page-too-large is the only kind of error a [Seek] clears: with an error
    of another kind recorded, the reset step leaves it in place and an error
    is still recorded when the [Seek] ends (the same one, or the wrapped
    error of a failed acquisition).  That such an error is final is not
    claimed: the acquisition error that replaces it can be a page-too-large
    one. *)
Theorem page_too_large_cleared_by_Seek_not_by_Next it e :
  initialized it = true ->
  err it = Some e ->
  errors_Is (Some e) ErrPageTooLarge = true ->
  err (resetPageTooLarge (ensureInit it)) = None /\
  (forall offset, Seek offset it = Seek offset (set_err None it)) /\
  (forall fuel, Next fuel it = Returns false it /\ Err it = Some e) /\
  (forall it2 e2,
      err it2 = Some e2 ->
      errors_Is (Some e2) ErrPageTooLarge = false ->
      resetPageTooLarge it2 = it2) /\
  (forall it2 e2 offset,
      initialized it2 = true ->
      err it2 = Some e2 ->
      errors_Is (Some e2) ErrPageTooLarge = false ->
      exists it',
        final (Seek offset it2) = Some it' /\
        (err it' = Some e2 \/
         exists e' cs w',
           acquire_fails (Page offset) (m it2) (b (dropCurrent it2)) e' cs w' /\
           err it' = Some e') /\
        err it' <> None).
Proof.
  intros Hi He Hptl.
  assert (Hreset : resetPageTooLarge (ensureInit it) = set_err None it).
  { rewrite ensureInit_done by exact Hi.
    apply resetPageTooLarge_clears. now rewrite He. }
  split; [|split; [|split; [|split]]].
  - now rewrite Hreset.
  - intros offset. unfold Seek. rewrite Hreset.
    rewrite ensureInit_done by exact Hi.
    now rewrite resetPageTooLarge_keeps.
  - intros fuel. split.
    + unfold Next. rewrite ensureInit_done by exact Hi. now rewrite He.
    + unfold Err. now rewrite He.
  - intros it2 e2 He2 Hn. apply resetPageTooLarge_keeps. now rewrite He2.
  - intros it2 e2 offset Hi2 He2 Hn2.
    unfold Seek. rewrite ensureInit_done by exact Hi2.
    rewrite resetPageTooLarge_keeps by now rewrite He2.
    destruct (seekPage_err it2 offset) as (it' & Hfin & Herr).
    exists it'. split; [exact Hfin|].
    destruct Herr as [Hsame|(e' & cs & w' & Hf & He')].
    + split; [left; congruence|congruence].
    + split; [right; exists e', cs, w'; auto|congruence].
Qed.

(** C8: when acquiring the target page fails in [Seek] (the byte stream does
    not open, or the block's decoder factory reports an error), the wrapped
    error is recorded and [Seek] returns without repositioning: it makes no
    [Seek(byteOffset)] call on a decoder, and [curPageIndex] and [curPage]
    keep their previous values. *)
Theorem Seek_failed_acquisition_records_and_returns it offset e cs w' :
  let it0 := resetPageTooLarge (ensureInit it) in
  needsLoad offset it = true ->
  acquire_fails (Page offset) (m it) (b (dropCurrent it0)) e cs w' ->
  exists it' new,
    Seek offset it = Returns tt it' /\
    err it' = Some e /\
    curPageIndex it' = curPageIndex it /\
    curPage it' = curPage it /\
    calls it' = calls it ++ new /\
    no_PageSeek new.
Proof.
  intros it0 Hload Hfail.
  destruct (ensureInit_frame it) as (_ & Em & Ex & Ep & Ec).
  destruct (resetPageTooLarge_frame (ensureInit it))
    as (_ & _ & Rm & _ & Rx & Rp & Rc).
  fold it0 in Rm, Rx, Rp, Rc.
  assert (Hload0 : needsLoad offset it0 = true)
    by (unfold it0; now rewrite needsLoad_prologue).
  assert (Hm0 : m it0 = m it) by congruence.
  rewrite <- Hm0 in Hfail.
  destruct (seekPage_acquire_fails it0 offset e cs w' Hload0 Hfail)
    as (it' & HS & He & _ & _ & _ & _ & Hx & Hp & Hc).
  exists it',
    ((if initialized it then [] else [CallLoadHeaders]) ++ dropCalls it0 ++ cs).
  split; [exact HS|]. split; [exact He|].
  split; [congruence|]. split; [congruence|]. split.
  - rewrite Hc, Rc, Ec, <- app_assoc. reflexivity.
  - intros d o Hin.
    apply in_app_or in Hin as [Hin|Hin].
    + destruct (initialized it); [contradiction|].
      destruct Hin as [Hin|[]]. discriminate Hin.
    + apply in_app_or in Hin as [Hin|Hin].
      * exact (dropCalls_no_PageSeek it0 d o Hin).
      * exact (acquire_fails_no_PageSeek _ _ _ _ _ _ Hfail d o Hin).
Qed.

(** C9: with pooling enabled, a [Seek] that releases the held page (the
    decoder's [Relinquish] runs on the world) and then fails to acquire the
    target leaves [curPage] on the released decoder and [curPageIndex] on the
    old index.  A later [Seek] to that index makes no acquisition and
    repositions the released decoder; a later [Seek] to any other page
    starts by running [Relinquish] on it once more, and opens its byte
    stream on the world that second release left. *)
Theorem failed_Seek_keeps_released_decoder it offset d e cs w' :
  usePool it = true ->
  curPage it = Some d ->
  curPageIndex it <> Page offset ->
  acquire_fails (Page offset) (m it)
    (page_Relinquish d (b (ensureInit it))) e cs w' ->
  exists it1,
    Seek offset it = Returns tt it1 /\
    b it1 = w' /\
    err it1 = Some e /\
    calls it1 = calls it ++ (if initialized it then [] else [CallLoadHeaders])
                         ++ CallRelinquish d :: cs /\
    curPage it1 = Some d /\
    curPageIndex it1 = curPageIndex it /\
    (forall offset2,
        Page offset2 = curPageIndex it1 ->
        exists it2,
          Seek offset2 it1 = Returns tt it2 /\
          b it2 = page_Seek d (ByteOffset offset2) w' /\
          calls it2 = calls it1 ++ [CallPageSeek d (ByteOffset offset2)]) /\
    (forall offset2,
        Page offset2 <> curPageIndex it1 ->
        exists it2 rest,
          final (Seek offset2 it1) = Some it2 /\
          b it2 = fst (loadOn offset2 (m it) (page_Relinquish d w')) /\
          calls it2 = calls it1 ++ CallRelinquish d :: CallBlooms :: rest).
Proof.
  intros Hu Hd Hne Hfail.
  set (it0 := resetPageTooLarge (ensureInit it)) in *.
  destruct (ensureInit_frame it) as (Eu & Em & Ex & Ep & Ec).
  destruct (resetPageTooLarge_frame (ensureInit it))
    as (Ru & Rb & Rm & Ri & Rx & Rp & Rc).
  fold it0 in Ru, Rb, Rm, Ri, Rx, Rp, Rc.
  assert (Hload0 : needsLoad offset it0 = true).
  { unfold needsLoad. rewrite Rx, Ex.
    destruct (Z.eqb_spec (curPageIndex it) (Page offset)); [contradiction|].
    reflexivity. }
  assert (Hm0 : m it0 = m it) by congruence.
  assert (Hw0 : b (dropCurrent it0) = page_Relinquish d (b (ensureInit it))).
  { rewrite (dropCurrent_world it0 d) by congruence. now rewrite Rb. }
  rewrite <- Hm0, <- Hw0 in Hfail.
  destruct (seekPage_acquire_fails it0 offset e cs w' Hload0 Hfail)
    as (it1 & HS & He & Hb1 & Hu1 & Hm1 & Hi1 & Hx1 & Hp1 & Hc1).
  assert (Hdrop : dropCalls it0 = [CallRelinquish d]).
  { unfold dropCalls. rewrite Rp, Ep, Hd, Ru, Eu, Hu. reflexivity. }
  assert (Hinit1 : initialized it1 = true).
  { rewrite Hi1, Ri. apply ensureInit_initialized. }
  assert (Hheld1 : curPage it1 = Some d) by congruence.
  assert (Hpool1 : usePool it1 = true) by congruence.
  set (it1r := resetPageTooLarge (ensureInit it1)).
  destruct (resetPageTooLarge_frame (ensureInit it1))
    as (Ru1 & Rb1 & Rm1 & _ & Rx1 & Rp1 & Rc1).
  fold it1r in Ru1, Rb1, Rm1, Rx1, Rp1, Rc1.
  rewrite (ensureInit_done it1 Hinit1) in Ru1, Rb1, Rm1, Rx1, Rp1, Rc1.
  exists it1.
  split; [exact HS|]. split; [exact Hb1|]. split; [exact He|]. split.
  { rewrite Hc1, Hdrop, Rc, Ec, <- app_assoc. reflexivity. }
  split; [exact Hheld1|]. split; [congruence|]. split.
  - intros offset2 Hsame. symmetry in Hsame.
    destruct (Seek_on_held_page it1 offset2 d Hheld1 Hsame)
      as (HS2 & _ & _ & Hc2).
    eexists. split; [exact HS2|]. split.
    + cbn. fold it1r. now rewrite Rb1, Hb1.
    + rewrite Hc2, Hinit1. reflexivity.
  - intros offset2 Hother.
    assert (Hload1 : needsLoad offset2 it1r = true).
    { unfold needsLoad. rewrite Rx1.
      destruct (Z.eqb_spec (curPageIndex it1) (Page offset2));
        [congruence|reflexivity]. }
    destruct (seekPage_load_calls it1r offset2 Hload1)
      as (it2 & rest & Hfin & Hc2).
    destruct (seekPage_load_world it1r offset2 Hload1)
      as (it2' & Hfin' & Hb2 & _).
    assert (it2' = it2) by congruence. subst it2'.
    exists it2, rest. split; [exact Hfin|]. split.
    + rewrite Hb2, (dropCurrent_world it1r d) by congruence.
      now rewrite Rb1, Hb1, Rm1, Hm1, Hm0.
    + rewrite Hc2, Rc1. unfold dropCalls. rewrite Rp1, Hheld1, Ru1, Hpool1.
      reflexivity.
Qed.

(** C3, as the code has it: once an error other than page-too-large is
    recorded, [Next] returns false at once and leaves the iterator as it
    was, and [Seek] never clears the error: after it, either the same error
    is still recorded, or the acquisition failed and its wrapped error has
    taken its place.  Either way [Err] stays non-nil.  ([Seek] itself has no
    guard on the error: it goes on to load and reposition pages.) *)
Theorem failed_cursor_Next_fails_Seek_never_clears it e offset :
  initialized it = true ->
  err it = Some e ->
  errors_Is (Some e) ErrPageTooLarge = false ->
  (forall fuel, Next fuel it = Returns false it) /\
  exists it',
    final (Seek offset it) = Some it' /\
    (err it' = Some e \/
     exists e' cs w',
       acquire_fails (Page offset) (m it) (b (dropCurrent it)) e' cs w' /\
       err it' = Some e') /\
    Err it' <> None.
Proof.
  intros Hi He Hn. split.
  - intros fuel. unfold Next. rewrite ensureInit_done by exact Hi.
    now rewrite He.
  - unfold Seek. rewrite ensureInit_done by exact Hi.
    rewrite resetPageTooLarge_keeps by now rewrite He.
    destruct (seekPage_err it offset) as (it' & Hfin & Herr).
    exists it'. split; [exact Hfin|].
    assert (Hcases : err it' = Some e \/
              exists e' cs w',
                acquire_fails (Page offset) (m it) (b (dropCurrent it)) e' cs w'
                /\ err it' = Some e').
    { destruct Herr as [Hsame|Hfail]; [left; congruence|right; exact Hfail]. }
    split; [exact Hcases|].
    unfold Err.
    destruct Hcases as [->|(e' & _ & _ & _ & ->)]; discriminate.
Qed.

(** C4, as the code has it: when the held page's [Next] returns false and the
    page reports a local error, [next] returns false and does not copy that
    error into the iterator's error field: the field stays nil, the page
    stays held at the same index, and it is [Err] that reports the page's
    error, by reading it from the held page. *)
Theorem page_error_stays_on_page it d fuel w' e :
  err it = None ->
  curPage it = Some d ->
  curPageIndex it < numPages (b it) ->
  page_Next d (b it) = (false, w') ->
  page_Err d w' = Some e ->
  let it' := log (CallPageNext d) (set_b w' it) in
  next (S fuel) it = Returns false it' /\
  err it' = None /\
  curPage it' = Some d /\
  curPageIndex it' = curPageIndex it /\
  Err it' = Some e.
Proof.
  intros He Hd Hlt Hn Hpe it'.
  split; [|split; [|split; [|split]]].
  - unfold next. rewrite He.
    rewrite (next_loop_page_stops it d fuel w') by assumption.
    cbn zeta. now rewrite Hpe.
  - exact He.
  - exact Hd.
  - reflexivity.
  - unfold Err, it'. cbn. now rewrite He, Hd.
Qed.

End Contract.

(** ** What the calls of [Seek] and [Next] can be, and how [Next] ends *)

Section Protocol.
Context {World Bloom : Type} `{!Collaborators World Bloom}.
Implicit Types (it : LazyBloomIter World) (offset : BloomOffset).

Lemma leavePage_config d it :
  usePool (leavePage d it) = usePool it /\ m (leavePage d it) = m it.
Proof.
  unfold leavePage. cbn. destruct (usePool it) eqn:Hu; cbn; auto.
Qed.

(** The loop of [next] keeps the configuration and makes only the calls
    [next_call_ok] allows. *)
Lemma next_loop_calls fuel : forall it ok it',
  next_loop fuel it = Returns ok it' ->
  usePool it' = usePool it /\
  m it' = m it /\
  exists new,
    calls it' = calls it ++ new /\
    Forall (next_call_ok (usePool it) (m it)) new.
Proof.
  induction fuel as [|fuel IH]; intros it ok it'; cbn [next_loop];
    [discriminate|].
  destruct (curPageIndex it <? numPages (b it)).
  2:{ intros [= _ <-]. split; [reflexivity|]. split; [reflexivity|].
      exists []. split; [now rewrite app_nil_r|constructor]. }
  destruct (curPage it) as [d|].
  - unfold do_PageNext. destruct (page_Next d (b it)) as [[|] w].
    + intros [= _ <-]. split; [reflexivity|]. split; [reflexivity|].
      exists [CallPageNext d]. split; [reflexivity|].
      constructor; [exact I|constructor].
    + cbn. destruct (page_Err d w).
      * intros [= _ <-]. split; [reflexivity|]. split; [reflexivity|].
        exists [CallPageNext d]. split; [reflexivity|].
        constructor; [exact I|constructor].
      * intros Hrun. apply IH in Hrun as (Hu & Hm & new & Hc & Hok).
        set (it1 := log (CallPageNext d) (set_b w it)) in *.
        destruct (leavePage_config d it1) as (Lu & Lm).
        destruct (leavePage_frame d it1) as (_ & _ & _ & _ & Lc).
        change (usePool it1) with (usePool it) in Lu, Lc.
        change (m it1) with (m it) in Lm.
        change (calls it1) with (calls it ++ [CallPageNext d]) in Lc.
        rewrite Lu in Hu, Hok. rewrite Lm in Hm, Hok.
        split; [exact Hu|]. split; [exact Hm|].
        exists ([CallPageNext d]
                  ++ (if usePool it then [CallRelinquish d] else []) ++ new).
        split.
        { rewrite Hc, Lc, <- !app_assoc. reflexivity. }
        constructor; [exact I|].
        apply Forall_app. split; [|exact Hok].
        destruct (usePool it) eqn:Hpool; constructor;
          [reflexivity|constructor].
  - unfold do_Blooms, do_BloomPageDecoder.
    destruct (reader_Blooms (b it)) as [[r [e|]] w].
    + intros [= _ <-]. split; [reflexivity|]. split; [reflexivity|].
      exists [CallBlooms]. split; [reflexivity|].
      constructor; [exact I|constructor].
    + cbn. destruct (BloomPageDecoder r (curPageIndex it) (m it) w)
        as [[d [e|]] w2]; cbn.
      * intros [= _ <-]. split; [reflexivity|]. split; [reflexivity|].
        exists [CallBlooms; CallBloomPageDecoder (curPageIndex it) (m it)].
        split; [cbn; now rewrite <- app_assoc|].
        constructor; [exact I|]. constructor; [reflexivity|constructor].
      * intros Hrun. apply IH in Hrun as (Hu & Hm & new & Hc & Hok).
        cbn in Hu, Hm, Hc, Hok.
        split; [exact Hu|]. split; [exact Hm|].
        exists ([CallBlooms; CallBloomPageDecoder (curPageIndex it) (m it)]
                  ++ new).
        split; [rewrite Hc, <- !app_assoc; reflexivity|].
        constructor; [exact I|]. constructor; [reflexivity|exact Hok].
Qed.

(** How the loop of [next] ends.  True: a page is held and the error field
    is as before.  False: an error was recorded, or the held page reports
    one, or the page index has reached the page count. *)
Lemma next_loop_post fuel : forall it ok it',
  next_loop fuel it = Returns ok it' ->
  if ok then
    err it' = err it /\ exists d, curPage it' = Some d
  else
    (exists e, err it' = Some e) \/
    (err it' = err it /\
     exists d e, curPage it' = Some d /\ page_Err d (b it') = Some e) \/
    (err it' = err it /\ numPages (b it') <= curPageIndex it').
Proof.
  induction fuel as [|fuel IH]; intros it ok it'; cbn [next_loop];
    [discriminate|].
  destruct (Z.ltb_spec (curPageIndex it) (numPages (b it))) as [Hlt|Hge].
  2:{ intros [= <- <-]. right. right. split; [reflexivity|exact Hge]. }
  destruct (curPage it) as [d|] eqn:Hd.
  - unfold do_PageNext. destruct (page_Next d (b it)) as [[|] w].
    + intros [= <- <-]. split; [reflexivity|]. exists d. exact Hd.
    + cbn. destruct (page_Err d w) as [e|] eqn:Hpe.
      * intros [= <- <-]. right. left. split; [reflexivity|].
        exists d, e. split; [exact Hd|exact Hpe].
      * intros Hrun. apply IH in Hrun.
        destruct (leavePage_frame d (log (CallPageNext d) (set_b w it)))
          as (_ & _ & Le & _).
        change (err (log (CallPageNext d) (set_b w it))) with (err it) in Le.
        rewrite Le in Hrun. exact Hrun.
  - unfold do_Blooms, do_BloomPageDecoder.
    destruct (reader_Blooms (b it)) as [[r [e|]] w].
    + intros [= <- <-]. left. eexists. reflexivity.
    + cbn. destruct (BloomPageDecoder r (curPageIndex it) (m it) w)
        as [[d [e|]] w2]; cbn.
      * intros [= <- <-]. left. eexists. reflexivity.
      * intros Hrun. apply IH in Hrun. exact Hrun.
Qed.

(** The calls of [seekPage]: the drop of the held page when a page is to be
    loaded, then only calls [load_call_ok] allows. *)
Lemma seekPage_calls it offset :
  exists it' rest,
    final (seekPage offset it) = Some it' /\
    usePool it' = usePool it /\
    m it' = m it /\
    calls it' = calls it
                  ++ (if needsLoad offset it then dropCalls it else [])
                  ++ rest /\
    Forall (load_call_ok offset (m it)) rest.
Proof.
  unfold seekPage.
  destruct (dropCurrent_frame it) as (Hu & Hm & _ & _ & _ & _ & Hc).
  unfold do_Blooms, do_BloomPageDecoder, curPage_Seek.
  destruct (needsLoad offset it).
  - destruct (reader_Blooms (b (dropCurrent it))) as [[r [e|]] w].
    + eexists. exists [CallBlooms]. split; [reflexivity|]. cbn.
      rewrite Hc, <- app_assoc.
      repeat (split; [assumption || reflexivity|]).
      constructor; [exact I|constructor].
    + cbn. rewrite Hm.
      destruct (BloomPageDecoder r (Page offset) (m it) w)
        as [[[d|] [e|]] w2]; cbn.
      * eexists. exists [CallBlooms; CallBloomPageDecoder (Page offset) (m it)].
        split; [reflexivity|]. cbn. rewrite Hc, <- !app_assoc.
        repeat (split; [assumption || reflexivity|]).
        constructor; [exact I|]. constructor; [now split|constructor].
      * eexists.
        exists [CallBlooms; CallBloomPageDecoder (Page offset) (m it);
                CallPageSeek d (ByteOffset offset)].
        split; [reflexivity|]. cbn. rewrite Hc, <- !app_assoc.
        repeat (split; [assumption || reflexivity|]).
        constructor; [exact I|]. constructor; [now split|].
        constructor; [reflexivity|constructor].
      * eexists. exists [CallBlooms; CallBloomPageDecoder (Page offset) (m it)].
        split; [reflexivity|]. cbn. rewrite Hc, <- !app_assoc.
        repeat (split; [assumption || reflexivity|]).
        constructor; [exact I|]. constructor; [now split|constructor].
      * eexists. exists [CallBlooms; CallBloomPageDecoder (Page offset) (m it)].
        split; [reflexivity|]. cbn. rewrite Hc, <- !app_assoc.
        repeat (split; [assumption || reflexivity|]).
        constructor; [exact I|]. constructor; [now split|constructor].
  - destruct (curPage it) as [d|].
    + eexists. exists [CallPageSeek d (ByteOffset offset)].
      split; [reflexivity|]. cbn.
      repeat (split; [reflexivity|]).
      constructor; [reflexivity|constructor].
    + exists it, []. split; [reflexivity|]. rewrite !app_nil_r.
      repeat (split; [reflexivity|]). constructor.
Qed.

Lemma loads_app (cs1 cs2 : list call) :
  loads (cs1 ++ cs2) = (loads cs1 + loads cs2)%nat.
Proof.
  induction cs1 as [|c cs1 IH]; [reflexivity|].
  destruct c; cbn; rewrite IH; reflexivity.
Qed.

Lemma releases_app d (cs1 cs2 : list call) :
  releases d (cs1 ++ cs2) = (releases d cs1 + releases d cs2)%nat.
Proof.
  induction cs1 as [|c cs1 IH]; [reflexivity|].
  destruct c; cbn; rewrite IH; lia.
Qed.

End Protocol.

(** ** Further properties of the iterator *)

Section Usage.
Context {World Bloom : Type} `{!Collaborators World Bloom}.
Implicit Types (it : LazyBloomIter World) (offset : BloomOffset).

Lemma loads_next_calls pool maxSize (cs : list call) :
  Forall (next_call_ok pool maxSize) cs -> loads cs = O.
Proof.
  induction 1 as [|c cs Hc _ IH]; [reflexivity|].
  destruct c; cbn in *; try exact IH; contradiction.
Qed.

Lemma loads_load_calls offset maxSize (cs : list call) :
  Forall (load_call_ok offset maxSize) cs -> loads cs = O.
Proof.
  induction 1 as [|c cs Hc _ IH]; [reflexivity|].
  destruct c; cbn in *; try exact IH; contradiction.
Qed.

Lemma loads_dropCalls it : loads (dropCalls it) = O.
Proof.
  unfold dropCalls. destruct (curPage it); [destruct (usePool it)|];
    reflexivity.
Qed.

Lemma releases_next_calls d maxSize (cs : list call) :
  Forall (next_call_ok false maxSize) cs -> releases d cs = O.
Proof.
  induction 1 as [|c cs Hc _ IH]; [reflexivity|].
  destruct c; cbn in *; try exact IH; discriminate.
Qed.

Lemma releases_load_calls d offset maxSize (cs : list call) :
  Forall (load_call_ok offset maxSize) cs -> releases d cs = O.
Proof.
  induction 1 as [|c cs Hc _ IH]; [reflexivity|].
  destruct c; cbn in *; try exact IH; contradiction.
Qed.

Lemma releases_initCalls d it : releases d (initCalls it) = O.
Proof. unfold initCalls. now destruct (initialized it). Qed.

(** The calls of a whole [Seek]. *)
Lemma Seek_calls it offset :
  exists it' rest,
    final (Seek offset it) = Some it' /\
    usePool it' = usePool it /\
    m it' = m it /\
    initialized it' = true /\
    calls it' = calls it ++ initCalls it
                  ++ (if needsLoad offset it then dropCalls it else [])
                  ++ rest /\
    Forall (load_call_ok offset (m it)) rest.
Proof.
  unfold Seek. set (it0 := resetPageTooLarge (ensureInit it)).
  destruct (ensureInit_frame it) as (Eu & Em & Ex & Ep & Ec).
  destruct (resetPageTooLarge_frame (ensureInit it))
    as (Ru & _ & Rm & Ri & Rx & Rp & Rc).
  fold it0 in Ru, Rm, Ri, Rx, Rp, Rc.
  destruct (seekPage_calls it0 offset) as (it' & rest & Hfin & Hu & Hm & Hc & Hok).
  exists it', rest. split; [exact Hfin|].
  split; [congruence|]. split; [congruence|]. split.
  { rewrite (seekPage_initialized it0 offset it' Hfin), Ri.
    apply ensureInit_initialized. }
  split.
  - rewrite Hc, Rc, Ec. unfold it0 at 1. rewrite needsLoad_prologue.
    replace (dropCalls it0) with (dropCalls it)
      by (unfold dropCalls; now rewrite Rp, Ep, Ru, Eu).
    unfold initCalls. now rewrite <- !app_assoc.
  - rewrite <- Em, <- Rm. exact Hok.
Qed.

(** The calls of a whole [Next]. *)
Lemma Next_calls_shape it fuel ok it' :
  Next fuel it = Returns ok it' ->
  usePool it' = usePool it /\
  m it' = m it /\
  initialized it' = true /\
  exists new,
    calls it' = calls it ++ initCalls it ++ new /\
    Forall (next_call_ok (usePool it) (m it)) new.
Proof.
  unfold Next, next.
  destruct (ensureInit_frame it) as (Eu & Em & _ & _ & Ec).
  pose proof (ensureInit_initialized it) as Ei.
  destruct (err (ensureInit it)).
  - intros [= _ <-]. split; [exact Eu|]. split; [exact Em|].
    split; [exact Ei|]. exists []. split; [|constructor].
    rewrite Ec, app_nil_r. reflexivity.
  - intros Hrun.
    pose proof (next_loop_initialized _ _ _ _ Hrun) as Hi.
    apply next_loop_calls in Hrun as (Hu & Hm & new & Hc & Hok).
    split; [congruence|]. split; [congruence|]. split; [congruence|].
    exists new. split.
    + rewrite Hc, Ec. unfold initCalls. now rewrite <- app_assoc.
    + rewrite <- Eu, <- Em. exact Hok.
Qed.

(** X1: whatever [Seek] and [Next] calls were made on an iterator, the
    block's headers were loaded exactly once if the iterator is initialized
    and never otherwise: the lazy load is never repeated. *)
Theorem headers_loaded_at_most_once it :
  reachable it ->
  loads (calls it) = (if initialized it then 1 else 0)%nat.
Proof.
  induction 1 as [blk pool maxSize|it offset it' _ IH HS|it fuel ok it' _ IH HN].
  - reflexivity.
  - destruct (Seek_calls it offset) as (it2 & rest & Hfin & _ & _ & Hi & Hc & Hok).
    rewrite HS in Hfin. injection Hfin as <-.
    rewrite Hi, Hc, !loads_app, IH.
    rewrite (loads_load_calls _ _ _ Hok).
    replace (loads (if needsLoad offset it then dropCalls it else [])) with O
      by (destruct (needsLoad offset it); [now rewrite loads_dropCalls|reflexivity]).
    unfold initCalls. destruct (initialized it); reflexivity.
  - destruct (Next_calls_shape it fuel ok it' HN) as (_ & _ & Hi & new & Hc & Hok).
    rewrite Hi, Hc, !loads_app, IH.
    rewrite (loads_next_calls _ _ _ Hok).
    unfold initCalls. destruct (initialized it); reflexivity.
Qed.

(** X2: when the first use of an iterator is a [Next] and the header load
    fails, [Next] returns false after that single call, [Err] reports the
    header error, and every later [Next] returns false without calling the
    block again. *)
Theorem Next_fails_on_header_error it e w' :
  initialized it = false ->
  LoadHeaders (b it) = (Some e, w') ->
  exists it',
    (forall fuel, Next fuel it = Returns false it') /\
    calls it' = calls it ++ [CallLoadHeaders] /\
    curPage it' = curPage it /\
    curPageIndex it' = curPageIndex it /\
    Err it' = Some e /\
    (forall fuel, Next fuel it' = Returns false it').
Proof.
  intros Hi HL.
  exists (set_initialized true
            (set_err (Some e) (log CallLoadHeaders (set_b w' it)))).
  assert (HE : ensureInit it
               = set_initialized true
                   (set_err (Some e) (log CallLoadHeaders (set_b w' it)))).
  { unfold ensureInit, do_LoadHeaders. now rewrite Hi, HL. }
  split; [|repeat (split; [reflexivity|])].
  - intros fuel. unfold Next. now rewrite HE.
  - intros fuel. reflexivity.
Qed.

(** X3: when [Seek] has to load the target page and the acquisition
    succeeds, it releases the held page first (only with pooling), then
    opens one byte stream, requests one decoder for the target page with the
    configured maximum size and repositions it once; afterwards the iterator
    holds the new decoder at the target index, the recorded error is what the
    reset step left, and [At] reads from the new decoder. *)
Theorem Seek_loads_target_page it offset r w1 d w2 :
  let it0 := resetPageTooLarge (ensureInit it) in
  needsLoad offset it = true ->
  reader_Blooms (b (dropCurrent it0)) = (r, None, w1) ->
  BloomPageDecoder r (Page offset) (m it) w1 = (Some d, None, w2) ->
  exists it',
    Seek offset it = Returns tt it' /\
    curPage it' = Some d /\
    curPageIndex it' = Page offset /\
    err it' = err it0 /\
    b it' = page_Seek d (ByteOffset offset) w2 /\
    calls it' = calls it ++ initCalls it ++ dropCalls it
                  ++ [CallBlooms; CallBloomPageDecoder (Page offset) (m it);
                      CallPageSeek d (ByteOffset offset)] /\
    At it' = Returns (page_At d (b it')) it'.
Proof.
  intros it0 Hload HB HD.
  destruct (ensureInit_frame it) as (Eu & Em & Ex & Ep & Ec).
  destruct (resetPageTooLarge_frame (ensureInit it))
    as (Ru & _ & Rm & _ & Rx & Rp & Rc).
  fold it0 in Ru, Rm, Rx, Rp, Rc.
  destruct (dropCurrent_frame it0) as (_ & Dm & _ & De & _ & _ & Dc).
  assert (Hload0 : needsLoad offset it0 = true)
    by (unfold it0; now rewrite needsLoad_prologue).
  assert (Hdrop : dropCalls it0 = dropCalls it)
    by (unfold dropCalls; now rewrite Rp, Ep, Ru, Eu).
  eexists. split.
  { unfold Seek. fold it0. unfold seekPage. rewrite Hload0.
    unfold do_Blooms. rewrite HB. cbn.
    unfold do_BloomPageDecoder. cbn. rewrite Dm, Rm, Em, HD. cbn.
    unfold curPage_Seek. cbn. reflexivity. }
  cbn. repeat (split; [reflexivity || assumption|]).
  split; [|reflexivity].
  rewrite Dc, Hdrop, Rc, Ec. unfold initCalls. now rewrite <- !app_assoc.
Qed.

(** X4: an iterator built without pooling never returns a page to the pool:
    neither [Seek] nor [Next] calls [Relinquish] on any decoder. *)
Theorem without_pool_nothing_is_released it d :
  usePool it = false ->
  (forall offset it',
      final (Seek offset it) = Some it' ->
      exists new, calls it' = calls it ++ new /\ releases d new = O) /\
  (forall fuel ok it',
      Next fuel it = Returns ok it' ->
      exists new, calls it' = calls it ++ new /\ releases d new = O).
Proof.
  intros Hu. split.
  - intros offset it' Hfin.
    destruct (Seek_calls it offset) as (it2 & rest & Hfin2 & _ & _ & _ & Hc & Hok).
    rewrite Hfin in Hfin2. injection Hfin2 as <-.
    eexists. split; [exact Hc|].
    rewrite !releases_app, releases_initCalls.
    rewrite (releases_load_calls _ _ _ _ Hok).
    unfold dropCalls. rewrite Hu.
    destruct (needsLoad offset it); [destruct (curPage it)|]; reflexivity.
  - intros fuel ok it' HN.
    destruct (Next_calls_shape it fuel ok it' HN) as (_ & _ & _ & new & Hc & Hok).
    eexists. split; [exact Hc|].
    rewrite releases_app, releases_initCalls.
    rewrite Hu in Hok. now rewrite (releases_next_calls _ _ _ Hok).
Qed.

Lemma Next_true_post it fuel it' :
  Next fuel it = Returns true it' ->
  err it' = None /\ exists d, curPage it' = Some d.
Proof.
  unfold Next, next. destruct (err (ensureInit it)) eqn:He; [discriminate|].
  intros Hrun. apply next_loop_post in Hrun as (He' & d & Hd).
  rewrite He in He'. split; [exact He'|]. exists d. exact Hd.
Qed.

(** X5: when [Next] returns true the iterator holds a page and no error is
    recorded, so that [At] is defined (it reads the held page) and [Err]
    is that page's own error state. *)
Theorem Next_true_holds_a_page it fuel it' :
  Next fuel it = Returns true it' ->
  err it' = None /\
  exists d,
    curPage it' = Some d /\
    At it' = Returns (page_At d (b it')) it' /\
    Err it' = page_Err d (b it').
Proof.
  intros HN. apply Next_true_post in HN as (He & d & Hd).
  split; [exact He|]. exists d. split; [exact Hd|].
  unfold At, Err. now rewrite He, Hd.
Qed.

(** X6: on a block whose decoder factory hands out a decoder whenever it
    reports no error, [Seek] never reaches its last line,
    [it.curPage.Seek(offset.ByteOffset)], with a nil [curPage]: the page it
    repositions is the held one or the one the factory just returned.
    (Only the dereference of [curPage] is meant; the block pointer itself is
    never nil in this development.) *)
Theorem Seek_never_repositions_nil_page it offset :
  (forall r page maxSize (w : World) d w',
      BloomPageDecoder r page maxSize w = (d, None, w') -> d <> None) ->
  forall it', Seek offset it <> NilDeref it'.
Proof.
  intros Hsound it'. unfold Seek, seekPage.
  set (it0 := resetPageTooLarge (ensureInit it)).
  unfold do_Blooms, do_BloomPageDecoder, curPage_Seek.
  destruct (needsLoad offset it0) eqn:Hload.
  - destruct (reader_Blooms (b (dropCurrent it0))) as [[r [e|]] w];
      [discriminate|].
    cbn.
    destruct (BloomPageDecoder r (Page offset) (m (dropCurrent it0)) w)
      as [[[d|] [e|]] w2] eqn:HD; cbn; try discriminate.
    now apply Hsound in HD.
  - unfold needsLoad in Hload. apply orb_false_elim in Hload as [_ Hheld].
    destruct (curPage it0); discriminate.
Qed.

(** X7: a [Next] that returns false while [Err] reports nothing has run out
    of pages, and the end is stable: every later [Next] returns false again
    and leaves the iterator untouched. *)
Theorem Next_false_without_error_is_end_of_data it fuel it' :
  Next fuel it = Returns false it' ->
  Err it' = None ->
  numPages (b it') <= curPageIndex it' /\
  (forall fuel', Next (S fuel') it' = Returns false it').
Proof.
  intros HN HErr.
  destruct (Next_calls_shape it fuel false it' HN) as (_ & _ & Hi & _).
  assert (He : err it' = None).
  { unfold Err in HErr. destruct (err it'); [discriminate|reflexivity]. }
  assert (Hend : numPages (b it') <= curPageIndex it').
  { unfold Next, next in HN.
    destruct (err (ensureInit it)) eqn:He0.
    - injection HN as <-. congruence.
    - apply next_loop_post in HN as [(e & He1)|[(_ & d & e & Hd & Hpe)|(_ & Hge)]].
      + congruence.
      + unfold Err in HErr. rewrite He, Hd, Hpe in HErr. discriminate.
      + exact Hge. }
  split; [exact Hend|].
  intros fuel'. unfold Next, next.
  rewrite (ensureInit_done it' Hi), He.
  now apply next_loop_exhausted.
Qed.

(** X8: an error recorded by [Next] is sticky for [Next]: the call that
    records it returns false, and every later [Next] returns false without
    any call on the block or the pages. *)
Theorem Next_error_is_sticky it fuel ok it' :
  Next fuel it = Returns ok it' ->
  err it' <> None ->
  ok = false /\
  (forall fuel', Next fuel' it' = Returns false it').
Proof.
  intros HN He.
  destruct (Next_calls_shape it fuel ok it' HN) as (_ & _ & Hi & _).
  split.
  - destruct ok; [|reflexivity].
    apply Next_true_post in HN as (He' & _). contradiction.
  - intros fuel'. unfold Next. rewrite (ensureInit_done it' Hi).
    destruct (err it'); [reflexivity|contradiction].
Qed.

(** X9: when the decoder request of a [Seek] fails with an error that is,
    or wraps, page-too-large, the error [Seek] records (wrapped once more)
    is still recognised as page-too-large; so the next [Seek], whatever its
    target, starts from a clean error field and ends with no error recorded
    unless its own acquisition fails. *)
Theorem page_too_large_from_Seek_is_cleared_by_next_Seek
    it offset r w1 d e w2 :
  let it0 := resetPageTooLarge (ensureInit it) in
  needsLoad offset it = true ->
  reader_Blooms (b (dropCurrent it0)) = (r, None, w1) ->
  BloomPageDecoder r (Page offset) (m it) w1 = (d, Some e, w2) ->
  errors_Is (Some e) ErrPageTooLarge = true ->
  exists it1,
    Seek offset it = Returns tt it1 /\
    err it1 = Some (errors_Wrap e "loading bloom page") /\
    errors_Is (err it1) ErrPageTooLarge = true /\
    forall offset2,
      exists it2,
        final (Seek offset2 it1) = Some it2 /\
        (err it2 = None \/
         exists e' cs w',
           acquire_fails (Page offset2) (m it1)
             (b (dropCurrent (resetPageTooLarge (ensureInit it1)))) e' cs w' /\
           err it2 = Some e').
Proof.
  intros it0 Hload HB HD Hptl.
  destruct (ensureInit_frame it) as (_ & Em & _ & _ & _).
  destruct (resetPageTooLarge_frame (ensureInit it))
    as (_ & _ & Rm & Ri & _ & _ & _).
  fold it0 in Rm, Ri.
  assert (Hload0 : needsLoad offset it0 = true)
    by (unfold it0; now rewrite needsLoad_prologue).
  assert (Hfail : acquire_fails (Page offset) (m it0) (b (dropCurrent it0))
                    (errors_Wrap e "loading bloom page")
                    [CallBlooms; CallBloomPageDecoder (Page offset) (m it0)] w2).
  { eapply fail_BloomPageDecoder; [exact HB|]. rewrite Rm, Em. exact HD. }
  destruct (seekPage_acquire_fails it0 offset _ _ _ Hload0 Hfail)
    as (it1 & HS & He & _ & _ & _ & Hi1 & _).
  assert (Hinit1 : initialized it1 = true).
  { rewrite Hi1, Ri. apply ensureInit_initialized. }
  assert (Hrec : errors_Is (err it1) ErrPageTooLarge = true).
  { rewrite He. cbn. cbn in Hptl. exact Hptl. }
  exists it1. split; [exact HS|]. split; [exact He|]. split; [exact Hrec|].
  intros offset2.
  set (it1r := resetPageTooLarge (ensureInit it1)).
  destruct (resetPageTooLarge_frame (ensureInit it1))
    as (_ & _ & Rm1 & _ & _ & _ & _).
  fold it1r in Rm1. rewrite (ensureInit_done it1 Hinit1) in Rm1.
  assert (Hclean : err it1r = None).
  { unfold it1r. rewrite (ensureInit_done it1 Hinit1).
    now rewrite resetPageTooLarge_clears. }
  destruct (seekPage_err it1r offset2) as (it2 & Hfin & Hcases).
  exists it2. split; [exact Hfin|].
  destruct Hcases as [Hsame|(e' & cs & w' & Hf & He')].
  - left. congruence.
  - right. exists e', cs, w'. rewrite <- Rm1. split; [exact Hf|exact He'].
Qed.

(** X10: the calls of a [Next]: the lazy header load at most, then only
    byte-stream opens, decoder requests bounded by the configured maximum
    size, page advances, and releases when pooling is on.  [Next] never
    repositions a decoder and never changes the pooling flag or the maximum
    size. *)
Theorem Next_calls it fuel ok it' :
  Next fuel it = Returns ok it' ->
  usePool it' = usePool it /\
  m it' = m it /\
  exists new,
    calls it' = calls it ++ initCalls it ++ new /\
    Forall (next_call_ok (usePool it) (m it)) new /\
    no_PageSeek new.
Proof.
  intros HN.
  destruct (Next_calls_shape it fuel ok it' HN) as (Hu & Hm & _ & new & Hc & Hok).
  split; [exact Hu|]. split; [exact Hm|].
  exists new. split; [exact Hc|]. split; [exact Hok|].
  intros d o Hin.
  exact (proj1 (List.Forall_forall _ _) Hok _ Hin).
Qed.

(** X11: the calls of a [Seek], however it ends: the lazy header load at
    most, the release of the held page when a page is to be loaded and
    pooling is on, then only a byte-stream open, a decoder request for the
    target page with the configured maximum size and a repositioning to the
    requested byte offset.  [Seek] never advances a page and never changes
    the pooling flag or the maximum size. *)
Theorem Seek_calls_target_only it offset :
  exists it' rest,
    final (Seek offset it) = Some it' /\
    usePool it' = usePool it /\
    m it' = m it /\
    calls it' = calls it ++ initCalls it
                  ++ (if needsLoad offset it then dropCalls it else [])
                  ++ rest /\
    Forall (load_call_ok offset (m it)) rest /\
    (forall d, ~ In (CallPageNext d) rest).
Proof.
  destruct (Seek_calls it offset) as (it' & rest & Hfin & Hu & Hm & _ & Hc & Hok).
  exists it', rest.
  split; [exact Hfin|]. split; [exact Hu|]. split; [exact Hm|].
  split; [exact Hc|]. split; [exact Hok|].
  intros d Hin. exact (proj1 (List.Forall_forall _ _) Hok _ Hin).
Qed.

End Usage.

(** ** Termination of the scan *)

(** The loop of [next] ends provided the collaborators behave like a block
    of the package: the page count is fixed once the scan runs, and the
    decoder factory answers with a decoder whenever it reports no error. *)
Section Termination.
Context {World Bloom : Type} `{!Collaborators World Bloom}.
Implicit Types (it : LazyBloomIter World).

Hypothesis numPages_Blooms : forall w r e w',
  reader_Blooms w = (r, e, w') -> numPages w' = numPages w.
Hypothesis numPages_BloomPageDecoder : forall r page maxSize w d e w',
  BloomPageDecoder r page maxSize w = (d, e, w') -> numPages w' = numPages w.
Hypothesis numPages_page_Next : forall d w ok w',
  page_Next d w = (ok, w') -> numPages w' = numPages w.
Hypothesis numPages_page_Relinquish : forall d w,
  numPages (page_Relinquish d w) = numPages w.
Hypothesis decoder_or_error : forall r page maxSize w d w',
  BloomPageDecoder r page maxSize w = (d, None, w') -> d <> None.

Lemma int_add_one (i n : Z) : i < n -> n <= int_max -> int_min <= i ->
  int_add i 1 = i + 1.
Proof.
  unfold int_add, int_wrap, int_max, int_min. intros Hlt Hmax Hpos.
  rewrite Z.mod_small by lia. lia.
Qed.

Lemma leavePage_numPages d it :
  numPages (b (leavePage d it)) = numPages (b it).
Proof.
  unfold leavePage. cbn. destruct (usePool it); cbn; [|reflexivity].
  apply numPages_page_Relinquish.
Qed.

Lemma next_loop_terminates fuel : forall it,
  numPages (b it) <= int_max ->
  int_min <= curPageIndex it ->
  (iterations_left it < fuel)%nat ->
  exists ok it', next_loop fuel it = Returns ok it'.
Proof.
  induction fuel as [|fuel IH]; intros it Hmax Hpos Hfuel; [lia|].
  cbn [next_loop].
  destruct (Z.ltb_spec (curPageIndex it) (numPages (b it))) as [Hlt|Hge];
    [|eexists; eexists; reflexivity].
  unfold iterations_left in Hfuel.
  destruct (curPage it) as [d|] eqn:Hd.
  - unfold do_PageNext.
    destruct (page_Next d (b it)) as [[|] w] eqn:Hn;
      [eexists; eexists; reflexivity|].
    cbn. destruct (page_Err d w); [eexists; eexists; reflexivity|].
    pose proof (numPages_page_Next _ _ _ _ Hn) as Hw.
    set (it1 := log (CallPageNext d) (set_b w it)).
    destruct (leavePage_frame d it1) as (Hnil & Hx & _).
    change (curPageIndex it1) with (curPageIndex it) in Hx.
    pose proof (leavePage_numPages d it1) as Hnum.
    change (b it1) with w in Hnum. rewrite Hw in Hnum.
    rewrite (int_add_one _ (numPages (b it))) in Hx by lia.
    apply IH.
    + rewrite Hnum. exact Hmax.
    + rewrite Hx. lia.
    + unfold iterations_left. rewrite Hnil, Hx, Hnum. lia.
  - unfold do_Blooms, do_BloomPageDecoder.
    destruct (reader_Blooms (b it)) as [[r [e|]] w] eqn:HB;
      [eexists; eexists; reflexivity|].
    cbn.
    destruct (BloomPageDecoder r (curPageIndex it) (m it) w)
      as [[d [e|]] w2] eqn:HD; cbn; [eexists; eexists; reflexivity|].
    pose proof (numPages_Blooms _ _ _ _ HB) as Hw.
    pose proof (numPages_BloomPageDecoder _ _ _ _ _ _ _ HD) as Hw2.
    destruct d as [d|]; [|now apply decoder_or_error in HD].
    apply IH; cbn.
    + rewrite Hw2, Hw. exact Hmax.
    + exact Hpos.
    + unfold iterations_left. cbn. rewrite Hw2, Hw. lia.
Qed.

(** Under the same assumptions the loop never moves the page index back
    nor past the page count, and answers true only inside the page range. *)
Lemma next_loop_index fuel : forall it ok it',
  next_loop fuel it = Returns ok it' ->
  numPages (b it) <= int_max ->
  int_min <= curPageIndex it ->
  numPages (b it') = numPages (b it) /\
  curPageIndex it <= curPageIndex it' /\
  curPageIndex it' <= Z.max (curPageIndex it) (numPages (b it)) /\
  (ok = true -> curPageIndex it' < numPages (b it)).
Proof.
  induction fuel as [|fuel IH]; intros it ok it'; cbn [next_loop];
    [discriminate|].
  destruct (Z.ltb_spec (curPageIndex it) (numPages (b it))) as [Hlt|Hge].
  2:{ intros [= <- <-] _ _. repeat split; try lia; intros; try discriminate; lia. }
  destruct (curPage it) as [d|] eqn:Hd.
  - unfold do_PageNext.
    destruct (page_Next d (b it)) as [[|] w] eqn:Hn;
      pose proof (numPages_page_Next _ _ _ _ Hn) as Hw.
    + intros [= <- <-] _ _. cbn. repeat split; try lia; intros; try discriminate; lia.
    + cbn. destruct (page_Err d w).
      * intros [= <- <-] _ _. cbn. repeat split; try lia; intros; try discriminate; lia.
      * intros Hrun Hmax Hmin.
        set (it1 := log (CallPageNext d) (set_b w it)) in *.
        destruct (leavePage_frame d it1) as (_ & Hx & _).
        change (curPageIndex it1) with (curPageIndex it) in Hx.
        pose proof (leavePage_numPages d it1) as Hnum.
        change (b it1) with w in Hnum. rewrite Hw in Hnum.
        rewrite (int_add_one _ (numPages (b it))) in Hx by lia.
        apply IH in Hrun; [|rewrite Hnum; exact Hmax|rewrite Hx; lia].
        rewrite Hnum, Hx in Hrun. destruct Hrun as (H1 & H2 & H3 & H4).
        repeat split; try lia. exact H4.
  - unfold do_Blooms, do_BloomPageDecoder.
    destruct (reader_Blooms (b it)) as [[r [e|]] w] eqn:HB;
      pose proof (numPages_Blooms _ _ _ _ HB) as Hw.
    + intros [= <- <-] _ _. cbn. repeat split; try lia; intros; try discriminate; lia.
    + cbn.
      destruct (BloomPageDecoder r (curPageIndex it) (m it) w)
        as [[d [e|]] w2] eqn:HD; cbn;
        pose proof (numPages_BloomPageDecoder _ _ _ _ _ _ _ HD) as Hw2.
      * intros [= <- <-] _ _. cbn. repeat split; try lia; intros; try discriminate; lia.
      * intros Hrun Hmax Hmin.
        apply IH in Hrun; cbn in *; [|rewrite Hw2, Hw; exact Hmax|exact Hmin].
        rewrite Hw2, Hw in Hrun. exact Hrun.
Qed.

(** X12: on a block whose page count does not change during the scan and
    whose factory hands out a decoder whenever it reports no error, [Next]
    returns within two iterations per page left, plus two. *)
Theorem Next_terminates it fuel :
  numPages (b (ensureInit it)) <= int_max ->
  int_min <= curPageIndex it ->
  (iterations_left (ensureInit it) < fuel)%nat ->
  exists ok it', Next fuel it = Returns ok it'.
Proof.
  intros Hmax Hmin Hfuel. unfold Next, next.
  destruct (err (ensureInit it)); [eexists; eexists; reflexivity|].
  apply next_loop_terminates; [exact Hmax| |exact Hfuel].
  destruct (ensureInit_frame it) as (_ & _ & -> & _). exact Hmin.
Qed.

(** X13: on such a block [Next] never moves the page index backwards and
    never past the page count (the increment cannot overflow), and when it
    returns true the index designates a page of the block. *)
Theorem Next_keeps_index_in_range it fuel ok it' :
  Next fuel it = Returns ok it' ->
  numPages (b (ensureInit it)) <= int_max ->
  int_min <= curPageIndex it ->
  curPageIndex it <= curPageIndex it' /\
  curPageIndex it' <= Z.max (curPageIndex it) (numPages (b it')) /\
  (ok = true -> curPageIndex it' < numPages (b it')).
Proof.
  unfold Next, next. intros HN Hmax Hmin.
  destruct (ensureInit_frame it) as (_ & _ & Ex & _).
  destruct (err (ensureInit it)).
  - injection HN as <- <-. rewrite Ex. repeat split; try lia; intros; try discriminate; lia.
  - apply next_loop_index in HN; [|exact Hmax|rewrite Ex; exact Hmin].
    destruct HN as (Hn & Hle & Hub & Hin). rewrite Ex in Hle, Hub.
    rewrite Hn. auto.
Qed.

End Termination.

(** ** The contract on a concrete block *)

Import Mock.

(** The concrete block meets the assumptions made on blocks: its page
    count is fixed once the headers are loaded and its factory hands out a
    decoder whenever it reports no error. *)
Lemma mock_numPages_Blooms (w : Block) r e w' :
  reader_Blooms w = (r, e, w') -> numPages w' = numPages w.
Proof. cbn. unfold blooms. now intros [= _ _ <-]. Qed.

Lemma mock_numPages_BloomPageDecoder r page maxSize (w : Block) d e w' :
  BloomPageDecoder r page maxSize w = (d, e, w') -> numPages w' = numPages w.
Proof.
  cbn. unfold bloomPageDecoder.
  destruct ((page <? 0) || (Z.of_nat (length (pageHeaders w)) <=? page));
    [now intros [= _ _ <-]|].
  destruct (pageHeaders w !! Z.to_nat page) as [size|];
    [|now intros [= _ _ <-]].
  destruct (stored w !! Z.to_nat page) as [records|];
    [|now intros [= _ _ <-]].
  destruct (maxSize <? Z.of_nat size); now intros [= _ _ <-].
Qed.

Lemma mock_numPages_page_Next d (w : Block) ok w' :
  page_Next d w = (ok, w') -> numPages w' = numPages w.
Proof.
  cbn. unfold nextRecord. destruct (decoders w !! d); now intros [= _ <-].
Qed.

Lemma mock_numPages_page_Relinquish d (w : Block) :
  numPages (page_Relinquish d w) = numPages w.
Proof. reflexivity. Qed.

Lemma mock_decoder_or_error r page maxSize (w : Block) d w' :
  BloomPageDecoder r page maxSize w = (d, None, w') -> d <> None.
Proof.
  cbn. unfold bloomPageDecoder.
  destruct ((page <? 0) || (Z.of_nat (length (pageHeaders w)) <=? page));
    [discriminate|].
  destruct (pageHeaders w !! Z.to_nat page) as [size|]; [|discriminate].
  destruct (stored w !! Z.to_nat page) as [records|]; [|discriminate].
  destruct (maxSize <? Z.of_nat size); [discriminate|].
  now intros [= <- _].
Qed.

Lemma mock_next_loop_terminates fuel (it : LazyBloomIter Block) :
  numPages (b it) <= int_max ->
  int_min <= curPageIndex it ->
  (iterations_left it < fuel)%nat ->
  exists ok it', next_loop fuel it = Returns ok it'.
Proof.
  apply next_loop_terminates.
  - exact mock_numPages_Blooms.
  - exact mock_numPages_BloomPageDecoder.
  - exact mock_numPages_page_Next.
  - exact mock_numPages_page_Relinquish.
  - exact mock_decoder_or_error.
Qed.

(** C1: the design document asks that a pooled page be released exactly
    once, when the cursor moves off it.  The code does not do that on this
    run: [Seek] to page 0, [Seek] to page 1 (too large for the iterator:
    the acquisition fails after page 0 was released, and the iterator still
    holds the released decoder at index 0), [Seek] to page 2 (page 0's
    decoder is released a second time). *)
Theorem pooled_page_released_twice_after_failed_Seek :
  let it1 := run [OpSeek 0 0] pooled in
  let it2 := run [OpSeek 0 0; OpSeek 1 0] pooled in
  let it3 := run [OpSeek 0 0; OpSeek 1 0; OpSeek 2 0] pooled in
  Seek (mkOffset 0 0) pooled = Returns tt it1 /\
  Seek (mkOffset 1 0) it1 = Returns tt it2 /\
  Seek (mkOffset 2 0) it2 = Returns tt it3 /\
  (curPage it1 = Some O /\ releases O (calls it1) = O) /\
  (curPage it2 = Some O /\ curPageIndex it2 = 0 /\
   releases O (calls it2) = 1%nat) /\
  releases O (calls it3) = 2%nat /\
  (d_released <$> decoders (b it3) !! O) = Some 2%nat.
Proof. by_running. Qed.

(** C3 does not hold as the design document words it.  After a [Seek] to the
    page 9 that the block does not have, an invalid-page error is recorded;
    the next [Seek], to page 0, does not short-circuit: it loads page 0 and
    repositions it.  And the failure is not final: a [Seek] to the oversized
    page 1 replaces the error by a page-too-large one, which the [Seek]
    after it clears, so that [Next] yields records again. *)
Lemma Seek_positions_despite_recorded_error :
  let it := run [OpSeek 9 0] pooled in
  let e := Wrapped errInvalidPage "loading bloom page" in
  (initialized it = true /\
   err it = Some e /\
   errors_Is (Some e) ErrPageTooLarge = false /\
   curPage it = None /\
   exists it',
     Seek (mkOffset 0 1) it = Returns tt it' /\
     curPage it' = Some O /\
     calls it' = calls it ++ [CallBlooms; CallBloomPageDecoder 0 2;
                              CallPageSeek O 1]) /\
  (let it3 := run [OpSeek 9 0; OpSeek 1 0; OpSeek 0 0] pooled in
   err it3 = None /\ exists it4, Next 16 it3 = Returns true it4) /\
  ~ failed_cursor_short_circuits (World := Block).
Proof.
  cbv zeta. split; [|split].
  - conj; try (vm_compute; reflexivity).
    eexists. conj; vm_compute; reflexivity.
  - split; [vm_compute; reflexivity|].
    eexists. vm_compute. reflexivity.
  - intros Hclaim.
    destruct (Hclaim (run [OpSeek 9 0] pooled)
                     (Wrapped errInvalidPage "loading bloom page")
                     (mkOffset 0 1) 1%nat)
      as (_ & it' & new & HS & _ & _ & _ & Hp & _);
      try (vm_compute; reflexivity).
    vm_compute in HS. injection HS as <-.
    vm_compute in Hp. discriminate Hp.
Qed.

(** C2 does not hold as the design document words it: page-too-large is not
    the only kind of error a cursor recovers from.  After a [Seek] to the
    page 9 that the block does not have, an invalid-page error is recorded.
    A [Seek] to the oversized page 1 then fails and replaces it by a
    page-too-large error, the [Seek] to page 0 after it clears that one, and
    the cursor is back to work, [Next] returning true. *)
Lemma other_error_recovers_through_page_too_large :
  let it := run [OpSeek 9 0] pooled in
  let it1 := run [OpSeek 9 0; OpSeek 1 0] pooled in
  let it2 := run [OpSeek 9 0; OpSeek 1 0; OpSeek 0 0] pooled in
  let e := Wrapped errInvalidPage "loading bloom page" in
  (initialized it = true /\
   err it = Some e /\
   errors_Is (Some e) ErrPageTooLarge = false /\
   Seek (mkOffset 1 0) it = Returns tt it1 /\
   err it1 = Some (Wrapped ErrPageTooLarge "loading bloom page") /\
   Seek (mkOffset 0 0) it1 = Returns tt it2 /\
   err it2 = None /\
   Err it2 = None /\
   exists it3, Next 16 it2 = Returns true it3) /\
  ~ page_too_large_only_recoverable (World := Block).
Proof.
  cbv zeta.
  assert (HS1 : Seek (mkOffset 1 0) (run [OpSeek 9 0] pooled)
                = Returns tt (run [OpSeek 9 0; OpSeek 1 0] pooled))
    by (vm_compute; reflexivity).
  assert (HS2 : Seek (mkOffset 0 0) (run [OpSeek 9 0; OpSeek 1 0] pooled)
                = Returns tt (run [OpSeek 9 0; OpSeek 1 0; OpSeek 0 0] pooled))
    by (vm_compute; reflexivity).
  split.
  - conj; try (vm_compute; reflexivity).
    eexists. vm_compute. reflexivity.
  - intros Hclaim.
    destruct (Hclaim (run [OpSeek 9 0] pooled)
                     (Wrapped errInvalidPage "loading bloom page"))
      as (_ & Hfinal); try (vm_compute; reflexivity).
    apply (Hfinal eq_refl
             (run [OpSeek 9 0; OpSeek 1 0; OpSeek 0 0] pooled)).
    + eapply follows_Seek; [|exact HS2].
      eapply follows_Seek; [|exact HS1].
      apply follows_here.
    + vm_compute; reflexivity.
Qed.

(** C4 does not hold as the design document words it.  The iterator holds
    page 2 positioned on the record that does not decode: the page's [Next]
    returns false and the page reports a decoding error, yet [next] returns
    false with the iterator's own error field still nil. *)
Lemma page_decode_error_not_recorded :
  let it := run [OpSeek 2 1] pooled in
  (err it = None /\
   curPage it = Some O /\
   curPageIndex it < numPages (b it) /\
   fst (page_Next O (b it)) = false /\
   page_Err O (snd (page_Next O (b it))) = Some errDecode /\
   exists it', next 1 it = Returns false it' /\ err it' = None) /\
  ~ page_error_is_recorded (World := Block).
Proof.
  cbv zeta. split.
  - conj; try (vm_compute; reflexivity).
    eexists. split; vm_compute; reflexivity.
  - intros Hclaim.
    destruct (Hclaim (run [OpSeek 2 1] pooled) O O
                     (snd (page_Next O (b (run [OpSeek 2 1] pooled))))
                     errDecode)
      as (it' & HN & He); try (vm_compute; reflexivity).
    vm_compute in HN. injection HN as <-.
    vm_compute in He. discriminate He.
Qed.

(** *** The theorems at work on the concrete block *)

Lemma page_too_large_witness :
  let it := run [OpSeek 1 0] pooled in
  let e := Wrapped ErrPageTooLarge "loading bloom page" in
  let it2 := run [OpSeek 9 0] pooled in
  let e2 := Wrapped errInvalidPage "loading bloom page" in
  (initialized it = true /\
   err it = Some e /\
   errors_Is (Some e) ErrPageTooLarge = true) /\
  err (resetPageTooLarge (ensureInit it)) = None /\
  Seek (mkOffset 0 0) it = Seek (mkOffset 0 0) (set_err None it) /\
  Next 16 it = Returns false it /\
  (initialized it2 = true /\
   err it2 = Some e2 /\
   errors_Is (Some e2) ErrPageTooLarge = false) /\
  exists it',
    final (Seek (mkOffset 0 1) it2) = Some it' /\ err it' <> None.
Proof.
  cbv zeta.
  assert (Hi : initialized (run [OpSeek 1 0] pooled) = true)
    by (vm_compute; reflexivity).
  assert (He : err (run [OpSeek 1 0] pooled)
               = Some (Wrapped ErrPageTooLarge "loading bloom page"))
    by (vm_compute; reflexivity).
  assert (Hp : errors_Is (Some (Wrapped ErrPageTooLarge "loading bloom page"))
                         ErrPageTooLarge = true)
    by (vm_compute; reflexivity).
  assert (Hi2 : initialized (run [OpSeek 9 0] pooled) = true)
    by (vm_compute; reflexivity).
  assert (He2 : err (run [OpSeek 9 0] pooled)
                = Some (Wrapped errInvalidPage "loading bloom page"))
    by (vm_compute; reflexivity).
  assert (Hp2 : errors_Is (Some (Wrapped errInvalidPage "loading bloom page"))
                          ErrPageTooLarge = false)
    by (vm_compute; reflexivity).
  destruct (page_too_large_cleared_by_Seek_not_by_Next _ _ Hi He Hp)
    as (H1 & H2 & H3 & _ & H5).
  destruct (H5 _ _ (mkOffset 0 1) Hi2 He2 Hp2) as (it' & Hfin & _ & Hne).
  split; [auto|]. split; [exact H1|]. split; [apply H2|].
  split; [apply H3|]. split; [auto|]. exists it'. auto.
Defined.

Lemma failed_cursor_witness :
  let it := run [OpSeek 9 0] pooled in
  let e := Wrapped errInvalidPage "loading bloom page" in
  (initialized it = true /\
   err it = Some e /\
   errors_Is (Some e) ErrPageTooLarge = false) /\
  Next 16 it = Returns false it /\
  exists it', final (Seek (mkOffset 0 1) it) = Some it' /\ Err it' <> None.
Proof.
  cbv zeta.
  assert (Hi : initialized (run [OpSeek 9 0] pooled) = true)
    by (vm_compute; reflexivity).
  assert (He : err (run [OpSeek 9 0] pooled)
               = Some (Wrapped errInvalidPage "loading bloom page"))
    by (vm_compute; reflexivity).
  assert (Hp : errors_Is (Some (Wrapped errInvalidPage "loading bloom page"))
                         ErrPageTooLarge = false)
    by (vm_compute; reflexivity).
  destruct (failed_cursor_Next_fails_Seek_never_clears
              _ _ (mkOffset 0 1) Hi He Hp)
    as (HN & it' & Hfin & _ & HErr).
  split; [auto|]. split; [apply HN|]. exists it'. auto.
Defined.

Lemma page_error_witness :
  let it := run [OpSeek 2 1] pooled in
  let w' := snd (page_Next O (b it)) in
  let it' := log (CallPageNext O) (set_b w' it) in
  (err it = None /\
   curPage it = Some O /\
   curPageIndex it < numPages (b it) /\
   page_Next O (b it) = (false, w') /\
   page_Err O w' = Some errDecode) /\
  next 1 it = Returns false it' /\
  err it' = None /\
  Err it' = Some errDecode.
Proof.
  cbv zeta.
  assert (H1 : err (run [OpSeek 2 1] pooled) = None)
    by (vm_compute; reflexivity).
  assert (H2 : curPage (run [OpSeek 2 1] pooled) = Some O)
    by (vm_compute; reflexivity).
  assert (H3 : curPageIndex (run [OpSeek 2 1] pooled)
               < numPages (b (run [OpSeek 2 1] pooled)))
    by (vm_compute; reflexivity).
  assert (H4 : page_Next O (b (run [OpSeek 2 1] pooled))
               = (false, snd (page_Next O (b (run [OpSeek 2 1] pooled)))))
    by (vm_compute; reflexivity).
  assert (H5 : page_Err O (snd (page_Next O (b (run [OpSeek 2 1] pooled))))
               = Some errDecode)
    by (vm_compute; reflexivity).
  destruct (page_error_stays_on_page _ _ O _ _ H1 H2 H3 H4 H5)
    as (HN & He & _ & _ & HErr).
  split; [auto 10|]. split; [exact HN|]. split; [exact He|exact HErr].
Defined.

Lemma held_page_witness :
  let it := run [OpSeek 0 0] pooled in
  (curPage it = Some O /\ curPageIndex it = 0) /\
  exists it',
    Seek (mkOffset 0 1) it = Returns tt it' /\
    curPage it' = Some O /\
    calls it' = calls it ++ [CallPageSeek O 1].
Proof.
  cbv zeta.
  assert (H1 : curPage (run [OpSeek 0 0] pooled) = Some O)
    by (vm_compute; reflexivity).
  assert (H2 : curPageIndex (run [OpSeek 0 0] pooled) = Page (mkOffset 0 1))
    by (vm_compute; reflexivity).
  destruct (Seek_held_page_repositions_in_place _ (mkOffset 0 1) O H1 H2)
    as (HS & Hp & _ & new & Hc & -> & _).
  split; [auto|]. eexists. split; [exact HS|]. split; [exact Hp|exact Hc].
Defined.

Lemma clean_end_witness :
  let it := run [OpNext; OpNext; OpNext; OpNext; OpNext; OpNext] scan in
  let it1 := ensureInit it in
  (err it1 = None /\
   numPages (b it1) <= curPageIndex it1 /\
   curPage it1 = None) /\
  Next 1 it = Returns false it1 /\
  Err it1 = None.
Proof.
  cbv zeta.
  set (it := run [OpNext; OpNext; OpNext; OpNext; OpNext; OpNext] scan).
  assert (H1 : err (ensureInit it) = None) by (vm_compute; reflexivity).
  assert (H2 : numPages (b (ensureInit it)) <= curPageIndex (ensureInit it))
    by (vm_compute; discriminate).
  assert (H3 : curPage (ensureInit it) = None) by (vm_compute; reflexivity).
  assert (H4 : forall d, curPage (ensureInit it) = Some d ->
                         page_Err d (b (ensureInit it)) = None)
    by (intros d Hd; rewrite H3 in Hd; discriminate Hd).
  destruct (Next_past_last_page_is_clean_end it O H1 H2 H4) as (HN & HErr).
  split; [auto|]. split; [exact HN|exact HErr].
Defined.

Lemma Err_witness :
  Err (run [OpSeek 9 0] pooled)
    = Some (Wrapped errInvalidPage "loading bloom page") /\
  Err (run [OpSeek 2 1; OpNext] pooled) = Some errDecode /\
  Err pooled = None.
Proof.
  split; [|split].
  - apply (proj1 (Err_prefers_cursor_error_then_page_error
                    (run [OpSeek 9 0] pooled))).
    vm_compute; reflexivity.
  - rewrite (proj1 (proj2 (Err_prefers_cursor_error_then_page_error
                             (run [OpSeek 2 1; OpNext] pooled))) O);
      vm_compute; reflexivity.
  - apply (proj2 (proj2 (Err_prefers_cursor_error_then_page_error pooled)));
      vm_compute; reflexivity.
Defined.

Lemma failed_acquisition_witness :
  let it := run [OpSeek 0 0] pooled in
  (needsLoad (mkOffset 1 0) it = true /\
   exists it' new,
     Seek (mkOffset 1 0) it = Returns tt it' /\
     err it' = Some (Wrapped ErrPageTooLarge "loading bloom page") /\
     curPageIndex it' = curPageIndex it /\
     curPage it' = curPage it /\
     calls it' = calls it ++ new /\
     no_PageSeek new) /\
  (needsLoad (mkOffset 0 0) offline = true /\
   exists it' new,
     Seek (mkOffset 0 0) offline = Returns tt it' /\
     err it' = Some (Wrapped errStream "getting blooms reader") /\
     curPageIndex it' = curPageIndex offline /\
     curPage it' = curPage offline /\
     calls it' = calls offline ++ new /\
     no_PageSeek new).
Proof.
  cbv zeta. split.
  - split; [vm_compute; reflexivity|].
    eapply (Seek_failed_acquisition_records_and_returns
              (run [OpSeek 0 0] pooled) (mkOffset 1 0)).
    + vm_compute; reflexivity.
    + eapply fail_BloomPageDecoder; vm_compute; reflexivity.
  - split; [vm_compute; reflexivity|].
    eapply (Seek_failed_acquisition_records_and_returns
              offline (mkOffset 0 0)).
    + vm_compute; reflexivity.
    + eapply fail_Blooms; vm_compute; reflexivity.
Defined.

Lemma released_decoder_witness :
  let it := run [OpSeek 0 0] pooled in
  let w' := page_Relinquish O (b it) in
  (usePool it = true /\ curPage it = Some O /\ curPageIndex it <> 1) /\
  exists it1,
    Seek (mkOffset 1 0) it = Returns tt it1 /\
    b it1 = w' /\
    (d_released <$> decoders (b it1) !! O) = Some 1%nat /\
    calls it1 = calls it ++ [CallRelinquish O; CallBlooms;
                             CallBloomPageDecoder 1 2] /\
    curPage it1 = Some O /\
    curPageIndex it1 = 0 /\
    (exists it2,
        Seek (mkOffset 0 1) it1 = Returns tt it2 /\
        b it2 = page_Seek O 1 w' /\
        calls it2 = calls it1 ++ [CallPageSeek O 1]) /\
    (exists it2 rest,
        final (Seek (mkOffset 2 0) it1) = Some it2 /\
        b it2 = fst (loadOn (mkOffset 2 0) 2 (page_Relinquish O w')) /\
        (d_released <$> decoders (b it2) !! O) = Some 2%nat /\
        calls it2 = calls it1 ++ CallRelinquish O :: CallBlooms :: rest).
Proof.
  cbv zeta.
  set (it := run [OpSeek 0 0] pooled).
  set (w' := page_Relinquish O (b it)).
  assert (H1 : usePool it = true) by (vm_compute; reflexivity).
  assert (H2 : curPage it = Some O) by (vm_compute; reflexivity).
  assert (H3 : curPageIndex it <> Page (mkOffset 1 0))
    by (vm_compute; discriminate).
  assert (H4 : acquire_fails (Page (mkOffset 1 0)) (m it)
                 (page_Relinquish O (b (ensureInit it)))
                 (errors_Wrap ErrPageTooLarge "loading bloom page")
                 [CallBlooms; CallBloomPageDecoder (Page (mkOffset 1 0)) (m it)]
                 w')
    by (eapply fail_BloomPageDecoder; vm_compute; reflexivity).
  destruct (failed_Seek_keeps_released_decoder it (mkOffset 1 0) O _ _ _
              H1 H2 H3 H4)
    as (it1 & HS & Hb & _ & Hc & Hp & Hx & Hsame & Hother).
  split; [auto|]. exists it1.
  split; [exact HS|]. split; [exact Hb|].
  split; [rewrite Hb; vm_compute; reflexivity|].
  split; [exact Hc|]. split; [exact Hp|].
  split; [rewrite Hx; vm_compute; reflexivity|]. split.
  - apply (Hsame (mkOffset 0 1)). rewrite Hx. vm_compute; reflexivity.
  - destruct (Hother (mkOffset 2 0)) as (it2 & rest & Hfin & Hb2 & Hc2).
    { rewrite Hx. vm_compute; discriminate. }
    exists it2, rest. split; [exact Hfin|]. split; [exact Hb2|].
    split; [rewrite Hb2; vm_compute; reflexivity|exact Hc2].
Defined.

Lemma At_witness :
  At pooled = NilDeref pooled /\
  At (run [OpSeek 0 0; OpNext] pooled)
    = Returns (Some 10%nat) (run [OpSeek 0 0; OpNext] pooled) /\
  (let it := run [OpSeek 1 2] scan in
   let w' := snd (page_Next O (b it)) in
   let it' := leavePage O (log (CallPageNext O) (set_b w' it)) in
   next 2 it = Returns false it' /\ At it' = NilDeref it').
Proof.
  cbv zeta. split; [|split].
  - apply (proj1 (At_defined_only_on_held_page pooled)).
    vm_compute; reflexivity.
  - rewrite (proj1 (proj2 (At_defined_only_on_held_page
                             (run [OpSeek 0 0; OpNext] pooled))) O);
      vm_compute; reflexivity.
  - set (it := run [OpSeek 1 2] scan).
    destruct (proj2 (proj2 (proj2 (At_defined_only_on_held_page it)))
                O O (snd (page_Next O (b it))))
      as (HN & _ & HA); try (vm_compute; reflexivity).
    + vm_compute; discriminate.
    + split; [exact HN|exact HA].
Defined.

(** *** The further properties at work on the concrete block *)

Lemma headers_loaded_once_witness :
  let it := run [OpSeek 0 0; OpNext] pooled in
  reachable it /\ loads (calls it) = 1%nat.
Proof.
  cbv zeta.
  assert (Hr : reachable (run [OpSeek 0 0; OpNext] pooled)).
  { apply (reach_Next (run [OpSeek 0 0] pooled) 16 true).
    - apply (reach_Seek pooled (mkOffset 0 0)).
      + apply reach_New.
      + vm_compute; reflexivity.
    - vm_compute; reflexivity. }
  split; [exact Hr|].
  rewrite (headers_loaded_at_most_once _ Hr). vm_compute; reflexivity.
Defined.

Lemma header_error_witness :
  (initialized corrupt = false /\
   LoadHeaders (b corrupt) = (Some errCorruptHeaders, b corrupt)) /\
  exists it',
    Next 16 corrupt = Returns false it' /\
    calls it' = [CallLoadHeaders] /\
    Err it' = Some errCorruptHeaders /\
    Next 16 it' = Returns false it'.
Proof.
  assert (H1 : initialized corrupt = false) by (vm_compute; reflexivity).
  assert (H2 : LoadHeaders (b corrupt) = (Some errCorruptHeaders, b corrupt))
    by (vm_compute; reflexivity).
  destruct (Next_fails_on_header_error corrupt _ _ H1 H2)
    as (it' & HN & Hc & _ & _ & HE & HN').
  split; [auto|]. exists it'.
  split; [apply HN|]. split; [exact Hc|]. split; [exact HE|apply HN'].
Defined.

Lemma Seek_loads_witness :
  let it := run [OpSeek 0 0] pooled in
  needsLoad (mkOffset 2 1) it = true /\
  exists it',
    Seek (mkOffset 2 1) it = Returns tt it' /\
    curPage it' = Some 1%nat /\
    curPageIndex it' = 2 /\
    calls it' = calls it ++ [CallRelinquish O; CallBlooms;
                             CallBloomPageDecoder 2 2; CallPageSeek 1%nat 1].
Proof.
  cbv zeta.
  set (it := run [OpSeek 0 0] pooled).
  set (w1 := b (dropCurrent (resetPageTooLarge (ensureInit it)))).
  set (w2 := snd (BloomPageDecoder O 2 2 w1)).
  assert (H1 : needsLoad (mkOffset 2 1) it = true) by (vm_compute; reflexivity).
  assert (H2 : reader_Blooms w1 = (O, None, w1)) by (vm_compute; reflexivity).
  assert (H3 : BloomPageDecoder O (Page (mkOffset 2 1)) (m it) w1
               = (Some 1%nat, None, w2)) by (vm_compute; reflexivity).
  destruct (Seek_loads_target_page it (mkOffset 2 1) O w1 1%nat w2 H1 H2 H3)
    as (it' & HS & Hp & Hx & _ & _ & Hc & _).
  split; [exact H1|]. exists it'.
  split; [exact HS|]. split; [exact Hp|]. split; [exact Hx|].
  rewrite Hc. vm_compute; reflexivity.
Defined.

Lemma without_pool_witness :
  let it := run [OpSeek 0 0] plain in
  let it3 := run [OpNext; OpNext; OpNext] plain in
  (usePool it = false /\ usePool it3 = false) /\
  (exists new,
      calls (run [OpSeek 0 0; OpSeek 1 0] plain) = calls it ++ new /\
      releases O new = O) /\
  (exists new,
      calls (run [OpNext; OpNext; OpNext; OpNext] plain) = calls it3 ++ new /\
      releases O new = O).
Proof.
  cbv zeta.
  assert (Hu : usePool (run [OpSeek 0 0] plain) = false)
    by (vm_compute; reflexivity).
  assert (Hu3 : usePool (run [OpNext; OpNext; OpNext] plain) = false)
    by (vm_compute; reflexivity).
  split; [auto|]. split.
  - apply (proj1 (without_pool_nothing_is_released _ O Hu) (mkOffset 1 0)).
    vm_compute; reflexivity.
  - apply (proj2 (without_pool_nothing_is_released _ O Hu3) 16%nat true).
    vm_compute; reflexivity.
Defined.

Lemma Next_true_witness :
  let it' := run [OpNext] pooled in
  Next 16 pooled = Returns true it' /\
  err it' = None /\
  exists d,
    curPage it' = Some d /\
    At it' = Returns (page_At d (b it')) it' /\
    Err it' = page_Err d (b it').
Proof.
  cbv zeta.
  assert (HN : Next 16 pooled = Returns true (run [OpNext] pooled))
    by (vm_compute; reflexivity).
  split; [exact HN|]. exact (Next_true_holds_a_page _ _ _ HN).
Defined.

Lemma Seek_nil_page_witness :
  ~ exists it', Seek (mkOffset 1 0) pooled = NilDeref it'.
Proof.
  intros [it' HS].
  exact (Seek_never_repositions_nil_page pooled (mkOffset 1 0)
           mock_decoder_or_error it' HS).
Defined.

Lemma end_of_data_witness :
  let it := run [OpNext; OpNext; OpNext; OpNext; OpNext] scan in
  let it' := run [OpNext; OpNext; OpNext; OpNext; OpNext; OpNext] scan in
  (Next 16 it = Returns false it' /\ Err it' = None) /\
  numPages (b it') <= curPageIndex it' /\
  Next 1 it' = Returns false it'.
Proof.
  cbv zeta.
  set (it := run [OpNext; OpNext; OpNext; OpNext; OpNext] scan).
  set (it' := run [OpNext; OpNext; OpNext; OpNext; OpNext; OpNext] scan).
  assert (HN : Next 16 it = Returns false it') by (vm_compute; reflexivity).
  assert (HE : Err it' = None) by (vm_compute; reflexivity).
  destruct (Next_false_without_error_is_end_of_data _ _ _ HN HE) as (Hend & Hst).
  split; [auto|]. split; [exact Hend|apply Hst].
Defined.

Lemma sticky_error_witness :
  let it := run [OpNext; OpNext] pooled in
  let it' := run [OpNext; OpNext; OpNext] pooled in
  (Next 16 it = Returns false it' /\ err it' = Some ErrPageTooLarge) /\
  Next 16 it' = Returns false it'.
Proof.
  cbv zeta.
  set (it := run [OpNext; OpNext] pooled).
  set (it' := run [OpNext; OpNext; OpNext] pooled).
  assert (HN : Next 16 it = Returns false it') by (vm_compute; reflexivity).
  assert (He : err it' = Some ErrPageTooLarge) by (vm_compute; reflexivity).
  assert (Hne : err it' <> None) by (rewrite He; discriminate).
  destruct (Next_error_is_sticky _ _ _ _ HN Hne) as (_ & Hst).
  split; [auto|]. apply Hst.
Defined.

Lemma page_too_large_recovery_witness :
  let it := run [OpSeek 0 0] pooled in
  needsLoad (mkOffset 1 0) it = true /\
  exists it1,
    Seek (mkOffset 1 0) it = Returns tt it1 /\
    err it1 = Some (Wrapped ErrPageTooLarge "loading bloom page") /\
    exists it2,
      final (Seek (mkOffset 2 0) it1) = Some it2 /\
      (err it2 = None \/
       exists e' cs w',
         acquire_fails (Page (mkOffset 2 0)) (m it1)
           (b (dropCurrent (resetPageTooLarge (ensureInit it1)))) e' cs w' /\
         err it2 = Some e').
Proof.
  cbv zeta.
  set (it := run [OpSeek 0 0] pooled).
  set (w1 := b (dropCurrent (resetPageTooLarge (ensureInit it)))).
  assert (H1 : needsLoad (mkOffset 1 0) it = true) by (vm_compute; reflexivity).
  assert (H2 : reader_Blooms w1 = (O, None, w1)) by (vm_compute; reflexivity).
  assert (H3 : BloomPageDecoder O (Page (mkOffset 1 0)) (m it) w1
               = (None, Some ErrPageTooLarge, w1)) by (vm_compute; reflexivity).
  assert (H4 : errors_Is (Some ErrPageTooLarge) ErrPageTooLarge = true)
    by reflexivity.
  destruct (page_too_large_from_Seek_is_cleared_by_next_Seek
              it (mkOffset 1 0) O w1 None ErrPageTooLarge w1 H1 H2 H3 H4)
    as (it1 & HS & He & _ & Hnext).
  split; [exact H1|]. exists it1.
  split; [exact HS|]. split; [exact He|]. exact (Hnext (mkOffset 2 0)).
Defined.

Lemma Next_calls_witness :
  let it' := run [OpNext] pooled in
  Next 16 pooled = Returns true it' /\
  usePool it' = usePool pooled /\
  m it' = m pooled /\
  exists new,
    calls it' = calls pooled ++ initCalls pooled ++ new /\
    Forall (next_call_ok (usePool pooled) (m pooled)) new /\
    no_PageSeek new.
Proof.
  cbv zeta.
  assert (HN : Next 16 pooled = Returns true (run [OpNext] pooled))
    by (vm_compute; reflexivity).
  split; [exact HN|]. exact (Next_calls _ _ _ _ HN).
Defined.

Lemma Next_terminates_witness :
  (numPages (b (ensureInit scan)) <= int_max /\
   int_min <= curPageIndex scan /\
   (iterations_left (ensureInit scan) < 6)%nat) /\
  exists ok it', Next 6 scan = Returns ok it'.
Proof.
  assert (H1 : numPages (b (ensureInit scan)) <= int_max)
    by (vm_compute; discriminate).
  assert (H2 : int_min <= curPageIndex scan) by (vm_compute; discriminate).
  assert (H3 : (iterations_left (ensureInit scan) < 6)%nat)
    by (vm_compute; lia).
  split; [auto|].
  exact (Next_terminates mock_numPages_Blooms mock_numPages_BloomPageDecoder
           mock_numPages_page_Next mock_numPages_page_Relinquish
           mock_decoder_or_error scan 6 H1 H2 H3).
Defined.

Lemma Next_index_witness :
  let it := run [OpNext; OpNext; OpNext] scan in
  let it' := run [OpNext; OpNext; OpNext; OpNext] scan in
  (Next 16 it = Returns true it' /\
   numPages (b (ensureInit it)) <= int_max /\
   int_min <= curPageIndex it) /\
  curPageIndex it <= curPageIndex it' /\
  curPageIndex it' < numPages (b it').
Proof.
  cbv zeta.
  set (it := run [OpNext; OpNext; OpNext] scan).
  set (it' := run [OpNext; OpNext; OpNext; OpNext] scan).
  assert (HN : Next 16 it = Returns true it') by (vm_compute; reflexivity).
  assert (H1 : numPages (b (ensureInit it)) <= int_max)
    by (vm_compute; discriminate).
  assert (H2 : int_min <= curPageIndex it) by (vm_compute; discriminate).
  destruct (Next_keeps_index_in_range
              mock_numPages_Blooms mock_numPages_BloomPageDecoder
              mock_numPages_page_Next mock_numPages_page_Relinquish
              it 16 true it' HN H1 H2) as (Hle & _ & Hin).
  split; [auto|]. split; [exact Hle|]. apply Hin. reflexivity.
Defined.
